(** * url-crawler: the task queue and worker pool of [internal/services]

    A shallow embedding of [internal/services/queue.go] (the [QueueService]),
    of the three storage operations it consumes
    ([internal/database/crawl_storage.go]) and of [ValidateURL]
    ([internal/services], Firecrawl service), followed by the properties of
    the specification that concern them.  Part III carries the embedding
    on to the bulk operations of the storage, the filters and pages of a
    listing, the login-form heuristic of the Firecrawl service, the
    authentication and rate-limiting middleware and the handlers
    ([internal/handlers]), with the properties the code shows for them.

    Conventions:
    - strings are byte strings ([string]), read as UTF-8 where Go reads
      runes; timestamps are [Z];
    - [*CrawlTask] pointers are addresses into a task heap, so that the
      in-flight map and the admission channel share one task object;
    - the MySQL table [crawl_results] is a finite map from the primary key
      [id] to its row;
    - everything the program obtains from outside (fresh UUIDs, the wall
      clock, the outcome of a SQL statement, the answer of the engine) is read
      from a [World] of oracles, each indexed by the number of calls made so
      far;
    - calls made on the collaborators, channel traffic and updates of the
      in-flight map are recorded in a [trace]. *)

From Stdlib Require Import ZArith Ascii String List.
From stdpp Require Import gmap strings list pretty.

Local Open Scope string_scope.

(* ===================================================================== *)
(** * Part I: definitions *)
(* ===================================================================== *)

(** ** Go's [unicode/utf8], [unicode] and [strings] packages, as far as
    [ValidateURL] and the login-form heuristic use them *)

Module utf8.

Definition RuneError : Z := 0xFFFD.
Definition RuneSelf : Z := 0x80.
Definition MaxRune : Z := 0x10FFFF.

(** A byte of a string as a number, and back. *)
Definition byte (c : ascii) : Z := Z.of_N (N_of_ascii c).
Definition of_byte (b : Z) : ascii := ascii_of_N (Z.to_N b).

(** The table [first] together with [acceptRanges], for a lead byte from
    [0x80] on: the length of the sequence the byte starts and the bounds of
    its second byte.  [None] is the entry [xx]: no sequence starts with this
    byte. *)
Definition first (s0 : Z) : option (nat * (Z * Z)) :=
  if decide (s0 < 0xC2)%Z then None
  else if decide (s0 ≤ 0xDF)%Z then Some (2%nat, (0x80, 0xBF)%Z)
  else if decide (s0 = 0xE0)%Z then Some (3%nat, (0xA0, 0xBF)%Z)
  else if decide (s0 ≤ 0xEC)%Z then Some (3%nat, (0x80, 0xBF)%Z)
  else if decide (s0 = 0xED)%Z then Some (3%nat, (0x80, 0x9F)%Z)
  else if decide (s0 ≤ 0xEF)%Z then Some (3%nat, (0x80, 0xBF)%Z)
  else if decide (s0 = 0xF0)%Z then Some (4%nat, (0x90, 0xBF)%Z)
  else if decide (s0 ≤ 0xF3)%Z then Some (4%nat, (0x80, 0xBF)%Z)
  else if decide (s0 = 0xF4)%Z then Some (4%nat, (0x80, 0x8F)%Z)
  else None.

(** A continuation byte: [locb <= b <= hicb]. *)
Definition continues (b : Z) : bool := bool_decide (0x80 ≤ b ≤ 0xBF)%Z.

(** [utf8.DecodeRuneInString(s)]: the first rune of [s] and its width in
    bytes; [(RuneError, 0)] for the empty string and [(RuneError, 1)] for a
    first byte that starts no valid, shortest-form sequence. *)
Definition DecodeRuneInString (s : string) : Z * nat :=
  match s with
  | EmptyString => (RuneError, 0%nat)
  | String c0 s =>
      let s0 := byte c0 in
      if decide (s0 < RuneSelf)%Z then (s0, 1%nat)
      else
        match first s0, s with
        | Some (sz, (lo, hi)), String c1 s =>
            let s1 := byte c1 in
            if decide (s1 < lo ∨ hi < s1)%Z then (RuneError, 1%nat)
            else if decide (sz ≤ 2)%nat
            then (Z.lor (Z.shiftl (Z.land s0 0x1F) 6) (Z.land s1 0x3F), 2%nat)
            else
              match s with
              | String c2 s =>
                  let s2 := byte c2 in
                  if negb (continues s2) then (RuneError, 1%nat)
                  else if decide (sz ≤ 3)%nat
                  then (Z.lor (Z.shiftl (Z.land s0 0x0F) 12)
                          (Z.lor (Z.shiftl (Z.land s1 0x3F) 6) (Z.land s2 0x3F)),
                        3%nat)
                  else
                    match s with
                    | String c3 _ =>
                        let s3 := byte c3 in
                        if negb (continues s3) then (RuneError, 1%nat)
                        else (Z.lor (Z.shiftl (Z.land s0 0x07) 18)
                                (Z.lor (Z.shiftl (Z.land s1 0x3F) 12)
                                   (Z.lor (Z.shiftl (Z.land s2 0x3F) 6)
                                      (Z.land s3 0x3F))),
                              4%nat)
                    | EmptyString => (RuneError, 1%nat)
                    end
              | EmptyString => (RuneError, 1%nat)
              end
        | _, _ => (RuneError, 1%nat)
        end
  end.

Definition bytes (bs : list Z) : string :=
  fold_right (fun b s => String (of_byte b) s) EmptyString bs.

(** [utf8.AppendRune] to an empty buffer: a rune that is no Unicode scalar
    value (out of range, or a surrogate half) is written as [RuneError]. *)
Definition EncodeRune (r : Z) : string :=
  if decide (0 ≤ r ≤ 0x7F)%Z then bytes [r]
  else if decide (0 ≤ r ≤ 0x7FF)%Z
  then bytes [Z.lor 0xC0 (Z.shiftr r 6); Z.lor 0x80 (Z.land r 0x3F)]
  else if decide (r < 0 ∨ MaxRune < r ∨ 0xD800 ≤ r ≤ 0xDFFF)%Z
  then bytes [0xEF; 0xBF; 0xBD]%Z
  else if decide (r ≤ 0xFFFF)%Z
  then bytes [Z.lor 0xE0 (Z.shiftr r 12);
              Z.lor 0x80 (Z.land (Z.shiftr r 6) 0x3F);
              Z.lor 0x80 (Z.land r 0x3F)]
  else bytes [Z.lor 0xF0 (Z.shiftr r 18);
              Z.lor 0x80 (Z.land (Z.shiftr r 12) 0x3F);
              Z.lor 0x80 (Z.land (Z.shiftr r 6) 0x3F);
              Z.lor 0x80 (Z.land r 0x3F)].

End utf8.

Module unicode.

Definition MaxASCII : Z := 0x7F.

(** [unicode.ToLower(r)].  Beyond ASCII the answer is looked up in Unicode's
    case tables, [unicode.To(unicode.LowerCase, r)]; the tables are not part
    of this development and stand as the argument [To_LowerCase]. *)
Definition ToLower (To_LowerCase : Z -> Z) (r : Z) : Z :=
  if decide (r ≤ MaxASCII)%Z
  then if decide (0x41 ≤ r ≤ 0x5A)%Z then (r + 0x20)%Z else r
  else To_LowerCase r.

End unicode.

Module strings.

(** [strings.HasPrefix(s, prefix)] *)
Fixpoint HasPrefix (s prefix : string) {struct prefix} : bool :=
  match prefix, s with
  | EmptyString, _ => true
  | String p prefix', String c s' =>
      if decide (p = c) then HasPrefix s' prefix' else false
  | String _ _, EmptyString => false
  end.

(** [strings.Contains(s, substr)] *)
Fixpoint Contains (s substr : string) : bool :=
  HasPrefix s substr ||
  match s with
  | EmptyString => false
  | String _ s' => Contains s' substr
  end.

(** [s[n:]] *)
Fixpoint skip (n : nat) (s : string) : string :=
  match n, s with
  | S n', String _ s' => skip n' s'
  | _, _ => s
  end.

(** [strings.Map(mapping, s)]: [s] is read rune by rune as [range] reads it
    (a byte that starts no valid sequence counts as [utf8.RuneError], one
    byte wide); a rune whose image is negative is dropped and any other is
    written as the UTF-8 encoding of its image.  A rune is at least one byte
    wide, so the length of [s] is fuel enough. *)
Fixpoint Map_from (fuel : nat) (mapping : Z -> Z) (s : string) : string :=
  match fuel, s with
  | S fuel', String _ _ =>
      let (c, width) := utf8.DecodeRuneInString s in
      let r := mapping c in
      (if decide (0 ≤ r)%Z then utf8.EncodeRune r else EmptyString)
      +:+ Map_from fuel' mapping (skip width s)
  | _, _ => EmptyString
  end.

Definition Map (mapping : Z -> Z) (s : string) : string :=
  Map_from (String.length s) mapping s.

Fixpoint isASCII (s : string) : bool :=
  match s with
  | EmptyString => true
  | String c s' => bool_decide (utf8.byte c < utf8.RuneSelf)%Z && isASCII s'
  end.

Definition lowerByte (c : ascii) : ascii :=
  let n := nat_of_ascii c in
  if (65 <=? n)%nat && (n <=? 90)%nat then ascii_of_nat (n + 32) else c.

(** The loop of [strings.ToLower] over a string that is all ASCII: the
    letters [A]..[Z] become [a]..[z]. *)
Fixpoint lowerASCII (s : string) : string :=
  match s with
  | EmptyString => EmptyString
  | String c s' => String (lowerByte c) (lowerASCII s')
  end.

(** [strings.ToLower(s)]: a string that is all ASCII is lower-cased byte by
    byte; any other goes through [Map(unicode.ToLower, s)], rune by rune. *)
Definition ToLower (To_LowerCase : Z -> Z) (s : string) : string :=
  if isASCII s then lowerASCII s
  else Map (unicode.ToLower To_LowerCase) s.

End strings.

(** ** [internal/models] *)

Module models.

Inductive CrawlStatus :=
| CrawlStatusQueued
| CrawlStatusRunning
| CrawlStatusCompleted
| CrawlStatusError.

Record HeadingCounts := {
  H1 : Z; H2 : Z; H3 : Z; H4 : Z; H5 : Z; H6 : Z
}.

Record BrokenLink := {
  BrokenLink_URL : string;
  StatusCode : Z;
  StatusText : string
}.

(** [Headings] is the field [HeadingCounts]. *)
Record CrawlResult := {
  ID : string;
  URL : string;
  Title : string;
  HTMLVersion : string;
  InternalLinksCount : Z;
  ExternalLinksCount : Z;
  InaccessibleLinksCount : Z;
  HasLoginForm : bool;
  Headings : HeadingCounts;
  BrokenLinks : list BrokenLink;
  ExternalLinks : list string;
  Status : CrawlStatus;
  ErrorMessage : option string;
  CreatedAt : Z;
  UpdatedAt : Z
}.

Definition noHeadings : HeadingCounts :=
  {| H1 := 0; H2 := 0; H3 := 0; H4 := 0; H5 := 0; H6 := 0 |}.

End models.

Import models.

#[global] Instance CrawlStatus_eq_dec : EqDecision CrawlStatus.
Proof. solve_decision. Defined.

(** ** [internal/database]: the three operations behind [CrawlStorage]

    [exec] is what the SQL driver answers for the statement (for a query,
    the scan of its row included): [None] when it ran, [Some e] when it failed
    with the error text [e]; a statement that failed leaves the table as it
    was. *)

Module database.

(** [INSERT ... ON DUPLICATE KEY UPDATE]: a new row takes every column of
    [result]; an existing row keeps [id], [url] and [created_at] and takes
    the twelve listed columns. *)
Definition upsert (result : CrawlResult) (old : option CrawlResult) : CrawlResult :=
  match old with
  | None => result
  | Some row =>
      {| ID := ID row; URL := URL row;
         Title := Title result; HTMLVersion := HTMLVersion result;
         InternalLinksCount := InternalLinksCount result;
         ExternalLinksCount := ExternalLinksCount result;
         InaccessibleLinksCount := InaccessibleLinksCount result;
         HasLoginForm := HasLoginForm result;
         Headings := Headings result;
         BrokenLinks := BrokenLinks result;
         ExternalLinks := ExternalLinks result;
         Status := Status result;
         ErrorMessage := ErrorMessage result;
         CreatedAt := CreatedAt row;
         UpdatedAt := UpdatedAt result |}
  end.

Definition SaveCrawlResult (exec : option string) (result : CrawlResult)
    (db : gmap string CrawlResult) : gmap string CrawlResult * option string :=
  match exec with
  | Some err => (db, Some ("failed to save crawl result: " +:+ err))
  | None => (<[ID result := upsert result (db !! ID result)]> db, None)
  end.

(** [UPDATE ... SET status, error_message, updated_at WHERE id = ?] *)
Definition set_status (status : CrawlStatus) (errorMsg : option string) (now : Z)
    (row : CrawlResult) : CrawlResult :=
  {| ID := ID row; URL := URL row;
     Title := Title row; HTMLVersion := HTMLVersion row;
     InternalLinksCount := InternalLinksCount row;
     ExternalLinksCount := ExternalLinksCount row;
     InaccessibleLinksCount := InaccessibleLinksCount row;
     HasLoginForm := HasLoginForm row;
     Headings := Headings row;
     BrokenLinks := BrokenLinks row;
     ExternalLinks := ExternalLinks row;
     Status := status;
     ErrorMessage := errorMsg;
     CreatedAt := CreatedAt row;
     UpdatedAt := now |}.

(** No row with that [id]: the statement runs, changes nothing and reports
    no error. *)
Definition UpdateCrawlStatus (exec : option string) (now : Z) (id : string)
    (status : CrawlStatus) (errorMsg : option string)
    (db : gmap string CrawlResult) : gmap string CrawlResult * option string :=
  match exec with
  | Some err => (db, Some ("failed to update crawl status: " +:+ err))
  | None => (alter (set_status status errorMsg now) id db, None)
  end.

(** [sql.ErrNoRows] becomes "crawl result not found"; any other failure of
    the query is wrapped. *)
Definition GetCrawlResult (exec : option string) (id : string)
    (db : gmap string CrawlResult) : CrawlResult + string :=
  match exec with
  | Some err => inr ("failed to get crawl result: " +:+ err)
  | None =>
      match db !! id with
      | None => inr "crawl result not found"
      | Some row => inl row
      end
  end.

End database.

(** ** [internal/services]: the [Crawler] interface and [ValidateURL] *)

(** What [AnalyzeURL] gives back: a result with a nil error, or an error
    (with the partly filled result the engine may hand over with it, which
    the queue never reads). *)
Inductive analysis :=
| Analyzed (result : CrawlResult)
| Failed (partial : option CrawlResult) (err : string).

(** The [Crawler] interface.  [AnalyzeURL] depends on the network: its first
    argument is the number of analyses run before this one. *)
Record Crawler := {
  AnalyzeURL : nat -> string -> analysis;
  ValidateURL : string -> option string
}.

Module FirecrawlService.

Definition maliciousPatterns : list string :=
  ["javascript:"; "data:"; "file:"; "ftp:"].

(** The [for ... range maliciousPatterns] loop. *)
Fixpoint scanPatterns (lowerURL : string) (patterns : list string) : option string :=
  match patterns with
  | [] => None
  | pattern :: rest =>
      if strings.Contains lowerURL pattern
      then Some "potentially malicious URL pattern detected"
      else scanPatterns lowerURL rest
  end.

(** [func (fs *FirecrawlService) ValidateURL(targetURL string) error];
    [None] is the nil error.  [To_LowerCase] is Unicode's lower-case table,
    which [strings.ToLower] consults for a target that is not all ASCII. *)
Definition ValidateURL (To_LowerCase : Z -> Z) (targetURL : string)
    : option string :=
  if decide (targetURL = "") then Some "URL cannot be empty"
  else if negb (strings.HasPrefix targetURL "http://")
          && negb (strings.HasPrefix targetURL "https://")
  then Some "URL must start with http:// or https://"
  else scanPatterns (strings.ToLower To_LowerCase targetURL) maliciousPatterns.

(** The service as a [Crawler]; [scrape] stands for the Firecrawl SDK and
    the extraction run on its answer. *)
Definition crawler (To_LowerCase : Z -> Z) (scrape : nat -> string -> analysis)
    : Crawler :=
  Build_Crawler scrape (ValidateURL To_LowerCase).

End FirecrawlService.

(** The invalid classes as the specification words them: the empty string, a
    target without the [http://] or [https://] prefix, a target that starts
    with a disallowed scheme in any letter case. *)
Definition spec_invalid_target (To_LowerCase : Z -> Z) (target : string) : bool :=
  bool_decide (target = "")
  || (negb (strings.HasPrefix target "http://")
      && negb (strings.HasPrefix target "https://"))
  || existsb (strings.HasPrefix (strings.ToLower To_LowerCase target))
       FirecrawlService.maliciousPatterns.


(** ** The outside world *)

(** Each oracle is asked with the number of earlier calls of its kind. *)
Record World := {
  uuid_New : nat -> string;           (* [uuid.New().String()] *)
  time_Now : nat -> Z;                (* [time.Now()] *)
  db_Exec : nat -> option string      (* the driver's error for a statement *)
}.

Record calls := {
  n_uuid : nat;
  n_time : nat;
  n_db : nat;
  n_analyze : nat
}.

(** ** [internal/services/queue.go]: data *)

(** The fields [ID], [URL], [CreatedAt], [Status] of the struct, prefixed to
    keep them apart from the columns of [CrawlResult]. *)
Record CrawlTask := {
  task_ID : string;
  task_URL : string;
  task_CreatedAt : Z;
  task_Status : CrawlStatus
}.

#[global] Instance CrawlTask_inhabited : Inhabited CrawlTask :=
  populate {| task_ID := ""; task_URL := ""; task_CreatedAt := 0;
              task_Status := CrawlStatusQueued |}.

(** A [*CrawlTask]. *)
Definition ptr := nat.

(** Why a worker loop returned: the text of its last log line. *)
Inductive exit_reason :=
| QueueClosed          (* "Queue closed, exiting" *)
| ContextCancelled.    (* "Context cancelled, exiting" *)

(** A worker goroutine registered with [q.wg]: parked at the [select] of its
    loop; inside [processTask] with everything done but the final
    [q.mu.Lock(); delete(...)]; or returned ([wg.Done] has run). *)
Inductive goroutine :=
| AtSelect
| AtLock (task : ptr)
| Exited (why : exit_reason).

#[global] Instance exit_reason_eq_dec : EqDecision exit_reason.
Proof. solve_decision. Defined.

#[global] Instance goroutine_eq_dec : EqDecision goroutine.
Proof. solve_decision. Defined.

Inductive event :=
| SaveCalled (result : CrawlResult)
| UpdateCalled (id : string) (status : CrawlStatus) (errorMsg : option string)
| GetCalled (id : string)
| AnalyzeCalled (url : string)
| Sent (task : ptr)
| Received (task : ptr)
| ActiveInsert (id : string) (task : ptr)
| ActiveDelete (id : string).

(** The [QueueService] struct.  [queue] and [queue_closed] are the buffered
    channel (its capacity is [bufferSize], which the configuration requires to
    be positive); [wg] lists the goroutines the wait group counts; [ctx_done]
    tells whether [cancel] was called; [storage] is the table behind
    [q.storage].  [q.mu] is not a field: every operation below is one call run
    to its end while no [Stop] is waiting, and the lock a waiting [Stop] holds
    is part of the [pool] of the worker semantics. *)
Record QueueService := mkQueueService {
  queue : list ptr;
  queue_closed : bool;
  workers : Z;
  bufferSize : Z;
  maxRetries : Z;
  retryDelay : Z;
  storage : gmap string CrawlResult;
  running : bool;
  wg : list goroutine;
  ctx_done : bool;
  activeTasks : gmap string ptr;
  heap : list CrawlTask;
  made : calls;
  trace : list event
}.

Definition set_queue (v : list ptr) (q : QueueService) : QueueService :=
  mkQueueService v (queue_closed q) (workers q) (bufferSize q) (maxRetries q)
    (retryDelay q) (storage q) (running q) (wg q) (ctx_done q) (activeTasks q)
    (heap q) (made q) (trace q).

Definition set_queue_closed (v : bool) (q : QueueService) : QueueService :=
  mkQueueService (queue q) v (workers q) (bufferSize q) (maxRetries q)
    (retryDelay q) (storage q) (running q) (wg q) (ctx_done q) (activeTasks q)
    (heap q) (made q) (trace q).

Definition set_maxRetries (v : Z) (q : QueueService) : QueueService :=
  mkQueueService (queue q) (queue_closed q) (workers q) (bufferSize q) v
    (retryDelay q) (storage q) (running q) (wg q) (ctx_done q) (activeTasks q)
    (heap q) (made q) (trace q).

Definition set_retryDelay (v : Z) (q : QueueService) : QueueService :=
  mkQueueService (queue q) (queue_closed q) (workers q) (bufferSize q)
    (maxRetries q) v (storage q) (running q) (wg q) (ctx_done q)
    (activeTasks q) (heap q) (made q) (trace q).

Definition set_storage (v : gmap string CrawlResult) (q : QueueService) : QueueService :=
  mkQueueService (queue q) (queue_closed q) (workers q) (bufferSize q)
    (maxRetries q) (retryDelay q) v (running q) (wg q) (ctx_done q)
    (activeTasks q) (heap q) (made q) (trace q).

Definition set_running (v : bool) (q : QueueService) : QueueService :=
  mkQueueService (queue q) (queue_closed q) (workers q) (bufferSize q)
    (maxRetries q) (retryDelay q) (storage q) v (wg q) (ctx_done q)
    (activeTasks q) (heap q) (made q) (trace q).

Definition set_wg (v : list goroutine) (q : QueueService) : QueueService :=
  mkQueueService (queue q) (queue_closed q) (workers q) (bufferSize q)
    (maxRetries q) (retryDelay q) (storage q) (running q) v (ctx_done q)
    (activeTasks q) (heap q) (made q) (trace q).

Definition set_ctx_done (v : bool) (q : QueueService) : QueueService :=
  mkQueueService (queue q) (queue_closed q) (workers q) (bufferSize q)
    (maxRetries q) (retryDelay q) (storage q) (running q) (wg q) v
    (activeTasks q) (heap q) (made q) (trace q).

Definition set_activeTasks (v : gmap string ptr) (q : QueueService) : QueueService :=
  mkQueueService (queue q) (queue_closed q) (workers q) (bufferSize q)
    (maxRetries q) (retryDelay q) (storage q) (running q) (wg q) (ctx_done q)
    v (heap q) (made q) (trace q).

Definition set_heap (v : list CrawlTask) (q : QueueService) : QueueService :=
  mkQueueService (queue q) (queue_closed q) (workers q) (bufferSize q)
    (maxRetries q) (retryDelay q) (storage q) (running q) (wg q) (ctx_done q)
    (activeTasks q) v (made q) (trace q).

Definition set_made (v : calls) (q : QueueService) : QueueService :=
  mkQueueService (queue q) (queue_closed q) (workers q) (bufferSize q)
    (maxRetries q) (retryDelay q) (storage q) (running q) (wg q) (ctx_done q)
    (activeTasks q) (heap q) v (trace q).

Definition set_trace (v : list event) (q : QueueService) : QueueService :=
  mkQueueService (queue q) (queue_closed q) (workers q) (bufferSize q)
    (maxRetries q) (retryDelay q) (storage q) (running q) (wg q) (ctx_done q)
    (activeTasks q) (heap q) (made q) v.

Definition log (e : event) (q : QueueService) : QueueService :=
  set_trace (trace q ++ [e]) q.

(** ** A state monad over [QueueService] *)

Definition M (A : Type) : Type := QueueService -> A * QueueService.

Definition ret {A} (a : A) : M A := fun q => (a, q).

Definition bind {A B} (m : M A) (k : A -> M B) : M B :=
  fun q => let (a, q') := m q in k a q'.

Definition modify (f : QueueService -> QueueService) : M unit :=
  fun q => (tt, f q).

Definition gets {A} (f : QueueService -> A) : M A := fun q => (f q, q).

Declare Scope go_scope.
Delimit Scope go_scope with go.
Notation "'let*' x ':=' m 'in' k" := (bind m (fun x => k))
  (at level 10, x pattern, m at level 100, k at level 200) : go_scope.
Notation "m ;; k" := (bind m (fun _ => k))
  (at level 100, right associativity) : go_scope.
Local Open Scope go_scope.

(** What a call of the public API comes to. *)
Inductive outcome (A : Type) :=
| Return (a : A)          (* a value and a nil error *)
| Error (msg : string)    (* a non-nil error with this text *)
| Panic (msg : string).   (* a run-time panic *)
Arguments Return {A} a.
Arguments Error {A} msg.
Arguments Panic {A} msg.

(** ** [internal/services/queue.go]: the operations *)

Section Queue.

Context (W : World) (crawler : Crawler).

(** *** Reading the world *)

Definition uuid_New_String : M string := fun q =>
  let c := made q in
  (uuid_New W (n_uuid c),
   set_made {| n_uuid := S (n_uuid c); n_time := n_time c; n_db := n_db c;
               n_analyze := n_analyze c |} q).

Definition time_Now_ : M Z := fun q =>
  let c := made q in
  (time_Now W (n_time c),
   set_made {| n_uuid := n_uuid c; n_time := S (n_time c); n_db := n_db c;
               n_analyze := n_analyze c |} q).

Definition sql_exec : M (option string) := fun q =>
  let c := made q in
  (db_Exec W (n_db c),
   set_made {| n_uuid := n_uuid c; n_time := n_time c; n_db := S (n_db c);
               n_analyze := n_analyze c |} q).

(** *** The collaborators, called through their interfaces *)

Definition storage_SaveCrawlResult (result : CrawlResult) : M (option string) :=
  modify (log (SaveCalled result)) ;;
  let* exec := sql_exec in
  let* db := gets storage in
  let (db', err) := database.SaveCrawlResult exec result db in
  modify (set_storage db') ;;
  ret err.

Definition storage_UpdateCrawlStatus (id : string) (status : CrawlStatus)
    (errorMsg : option string) : M (option string) :=
  modify (log (UpdateCalled id status errorMsg)) ;;
  let* now := time_Now_ in
  let* exec := sql_exec in
  let* db := gets storage in
  let (db', err) := database.UpdateCrawlStatus exec now id status errorMsg db in
  modify (set_storage db') ;;
  ret err.

Definition storage_GetCrawlResult (id : string) : M (CrawlResult + string) :=
  modify (log (GetCalled id)) ;;
  let* exec := sql_exec in
  let* db := gets storage in
  ret (database.GetCrawlResult exec id db).

Definition crawler_AnalyzeURL (url : string) : M analysis := fun q =>
  let c := made q in
  (AnalyzeURL crawler (n_analyze c) url,
   log (AnalyzeCalled url)
     (set_made {| n_uuid := n_uuid c; n_time := n_time c; n_db := n_db c;
                  n_analyze := S (n_analyze c) |} q)).

(** *** Task objects, the in-flight map, the channel *)

(** [&CrawlTask{...}] *)
Definition new_task (task : CrawlTask) : M ptr := fun q =>
  (length (heap q), set_heap (heap q ++ [task]) q).

(** [*task]; every pointer the service holds comes from [new_task]. *)
Definition load (task : ptr) : M CrawlTask :=
  gets (fun q => heap q !!! task).

(** [task.Status = status] *)
Definition store_Status (task : ptr) (status : CrawlStatus) : M unit :=
  modify (fun q =>
    let t := heap q !!! task in
    set_heap (<[task := {| task_ID := task_ID t; task_URL := task_URL t;
                           task_CreatedAt := task_CreatedAt t;
                           task_Status := status |}]> (heap q)) q).

(** [q.mu.Lock(); q.activeTasks[id] = task; q.mu.Unlock()] *)
Definition activeTasks_insert (id : string) (task : ptr) : M unit :=
  modify (fun q => log (ActiveInsert id task)
                     (set_activeTasks (<[id := task]> (activeTasks q)) q)).

(** [q.mu.Lock(); delete(q.activeTasks, id); q.mu.Unlock()] *)
Definition activeTasks_delete (id : string) : M unit :=
  modify (fun q => log (ActiveDelete id)
                     (set_activeTasks (delete id (activeTasks q)) q)).

Inductive sent := SendDone | SendDefault | SendOnClosed.

(** [select { case q.queue <- task: ... default: ... }].  A send on a closed
    channel panics, also inside a [select]; otherwise the send goes through
    when the buffer has room, and the [default] branch runs when it has none
    (with a positive capacity no receiver is parked on a full buffer, so room
    in the buffer is the only way through). *)
Definition queue_send_or_default (task : ptr) : M sent := fun q =>
  if queue_closed q then (SendOnClosed, q)
  else if decide (Z.of_nat (length (queue q)) < bufferSize q)%Z
  then (SendDone, log (Sent task) (set_queue (queue q ++ [task]) q))
  else (SendDefault, q).

Inductive received := RecvTask (task : ptr) | RecvClosed | RecvBlocks.

(** [task, ok := <-q.queue]: the oldest buffered task, also after the channel
    was closed; [ok = false] on a closed and empty channel; nothing yet on an
    open and empty one. *)
Definition queue_receive : M received := fun q =>
  match queue q with
  | task :: rest => (RecvTask task, log (Received task) (set_queue rest q))
  | [] => if queue_closed q then (RecvClosed, q) else (RecvBlocks, q)
  end.

(** *** Construction *)

Definition NewQueueServiceWithConfig (Workers BufferSize MaxRetries RetryDelay : Z)
    (db : gmap string CrawlResult) : QueueService :=
  {| queue := []; queue_closed := false;
     workers := Workers; bufferSize := BufferSize;
     maxRetries := MaxRetries; retryDelay := RetryDelay;
     storage := db;
     running := false; wg := []; ctx_done := false;
     activeTasks := ∅;
     heap := [];
     made := {| n_uuid := 0; n_time := 0; n_db := 0; n_analyze := 0 |};
     trace := [] |}.

(** [RetryDelay] in nanoseconds. *)
Definition NewQueueService (workers : Z) (db : gmap string CrawlResult) : QueueService :=
  NewQueueServiceWithConfig workers 100 3 5000000000 db.

(** *** Start and Stop *)

(** The [for i := 0; i < q.workers; i++] loop: [wg.Add(1); go q.worker(i)].
    A goroutine is known by its position in [wg]. *)
Definition Start : M unit := fun q =>
  if running q then (tt, q)
  else (tt, set_wg (wg q ++ replicate (Z.to_nat (workers q)) AtSelect)
              (set_running true q)).

Inductive stopped :=
| StopNoop                 (* not running: returned at once *)
| StopWaits                (* in [q.wg.Wait()], holding [q.mu] *)
| StopPanics (msg : string).

(** [Stop] up to its [q.wg.Wait()]: the call comes back once every goroutine
    of [wg] has exited (see [StopReturns] below). *)
Definition Stop : M stopped := fun q =>
  if negb (running q) then (StopNoop, q)
  else
    let q1 := set_ctx_done true (set_running false q) in
    if queue_closed q1 then (StopPanics "close of closed channel", q1)
    else (StopWaits, set_queue_closed true q1).

(** *** EnqueueURL, GetActiveTask *)

Definition EnqueueURL (url : string) : M (outcome CrawlResult) :=
  match ValidateURL crawler url with
  | Some err => ret (Error ("invalid URL: " +:+ err))
  | None =>
      let* id := uuid_New_String in
      let* created := time_Now_ in
      let* updated := time_Now_ in
      let result :=
        {| ID := id; URL := url; Title := ""; HTMLVersion := "";
           InternalLinksCount := 0; ExternalLinksCount := 0;
           InaccessibleLinksCount := 0; HasLoginForm := false;
           Headings := noHeadings; BrokenLinks := []; ExternalLinks := [];
           Status := CrawlStatusQueued; ErrorMessage := None;
           CreatedAt := created; UpdatedAt := updated |} in
      let* err := storage_SaveCrawlResult result in
      match err with
      | Some err => ret (Error ("failed to save crawl result: " +:+ err))
      | None =>
          let* now := time_Now_ in
          let* task := new_task {| task_ID := ID result; task_URL := url;
                                   task_CreatedAt := now;
                                   task_Status := CrawlStatusQueued |} in
          activeTasks_insert id task ;;
          let* s := queue_send_or_default task in
          match s with
          | SendDone => ret (Return result)
          | SendDefault =>
              activeTasks_delete id ;;
              let* _ := storage_UpdateCrawlStatus (ID result) CrawlStatusError
                          (Some "Queue is full") in
              ret (Error "queue is full, please try again later")
          | SendOnClosed => ret (Panic "send on closed channel")
          end
      end
  end.

(** [(task, exists)] as an option. *)
Definition GetActiveTask (id : string) (q : QueueService) : option ptr :=
  activeTasks q !! id.

(** *** processTask *)

(** [result.ID = id; result.Status = models.CrawlStatusCompleted;
    result.UpdatedAt = now] *)
Definition completed (id : string) (now : Z) (result : CrawlResult) : CrawlResult :=
  {| ID := id; URL := URL result;
     Title := Title result; HTMLVersion := HTMLVersion result;
     InternalLinksCount := InternalLinksCount result;
     ExternalLinksCount := ExternalLinksCount result;
     InaccessibleLinksCount := InaccessibleLinksCount result;
     HasLoginForm := HasLoginForm result;
     Headings := Headings result;
     BrokenLinks := BrokenLinks result;
     ExternalLinks := ExternalLinks result;
     Status := CrawlStatusCompleted;
     ErrorMessage := ErrorMessage result;
     CreatedAt := CreatedAt result;
     UpdatedAt := now |}.

(** [processTask] down to, and without, its last three lines. *)
Definition processTask_work (task : ptr) : M unit :=
  store_Status task CrawlStatusRunning ;;
  let* t := load task in
  let* _ := storage_UpdateCrawlStatus (task_ID t) CrawlStatusRunning None in
  let* a := crawler_AnalyzeURL (task_URL t) in
  match a with
  | Failed _ err =>
      let* _ := storage_UpdateCrawlStatus (task_ID t) CrawlStatusError (Some err) in
      ret tt
  | Analyzed result =>
      let* now := time_Now_ in
      let* err := storage_SaveCrawlResult (completed (task_ID t) now result) in
      match err with
      | Some _ =>
          let* _ := storage_UpdateCrawlStatus (task_ID t) CrawlStatusError
                      (Some "Failed to save crawl result") in
          ret tt
      | None => ret tt
      end
  end.

(** Its last three lines: [q.mu.Lock(); delete(q.activeTasks, task.ID);
    q.mu.Unlock()]. *)
Definition processTask_remove (task : ptr) : M unit :=
  let* t := load task in
  activeTasks_delete (task_ID t).

(** [processTask] run from its first line to its last, as it runs when
    [q.mu] is free at its last three lines.  In the pool below the two parts
    are steps of their own, and the second one waits for the lock. *)
Definition processTask (task : ptr) : M unit :=
  processTask_work task ;;
  processTask_remove task.

(** *** RequeueTask *)

Definition RequeueTask (id : string) : M (outcome unit) :=
  let* got := storage_GetCrawlResult id in
  match got with
  | inr err => ret (Error ("failed to get crawl result: " +:+ err))
  | inl result =>
      let* now := time_Now_ in
      let* task := new_task {| task_ID := id; task_URL := URL result;
                               task_CreatedAt := now;
                               task_Status := CrawlStatusQueued |} in
      let* err := storage_UpdateCrawlStatus id CrawlStatusQueued None in
      match err with
      | Some err => ret (Error ("failed to update status: " +:+ err))
      | None =>
          activeTasks_insert id task ;;
          let* s := queue_send_or_default task in
          match s with
          | SendDone => ret (Return tt)
          | SendDefault =>
              activeTasks_delete id ;;
              let* _ := storage_UpdateCrawlStatus id CrawlStatusError
                          (Some "Queue is full") in
              ret (Error "queue is full, please try again later")
          | SendOnClosed => ret (Panic "send on closed channel")
          end
      end
  end.

(** *** The worker loop and the pool of goroutines

    A [pool] is the service together with the lock a waiting [Stop] holds.
    The scheduler picks what happens next: which worker moves and, at its
    [select], which ready case is taken. *)

Inductive select_case :=
| case_queue       (* [case task, ok := <-q.queue] *)
| case_ctx_Done.   (* [case <-q.ctx.Done()] *)

Inductive action :=
| Select (id : nat) (c : select_case)
| Remove (id : nat)         (* the last three lines of [processTask] *)
| StopReturns.              (* [q.wg.Wait()] is over, [Stop] unlocks and returns *)

Definition set_goroutine (id : nat) (g : goroutine) : M unit :=
  modify (fun q => set_wg (<[id := g]> (wg q)) q).

(** [worker(id)]: one turn of its [for { select { ... } }], with the case
    the scheduler took; [None] when that case is not ready.  [processTask]
    is run up to its final lock, which is a step of its own ([Remove]). *)
Definition worker (id : nat) (c : select_case) (q : QueueService)
    : option QueueService :=
  match c with
  | case_queue =>
      match queue_receive q with
      | (RecvBlocks, _) => None
      | (RecvClosed, q') => Some (snd (set_goroutine id (Exited QueueClosed) q'))
      | (RecvTask task, q') =>
          Some (snd ((processTask_work task ;; set_goroutine id (AtLock task)) q'))
      end
  | case_ctx_Done =>
      if ctx_done q
      then Some (snd (set_goroutine id (Exited ContextCancelled) q))
      else None
  end.

Definition is_exited (g : goroutine) : bool :=
  match g with Exited _ => true | _ => false end.

Record pool := {
  mu_held_by_Stop : bool;
  svc : QueueService
}.

(** [None]: the action cannot happen in this pool. *)
Definition perform (a : action) (p : pool) : option pool :=
  let q := svc p in
  match a with
  | Select id c =>
      match wg q !! id with
      | Some AtSelect =>
          q' ← worker id c q;
          Some {| mu_held_by_Stop := mu_held_by_Stop p; svc := q' |}
      | _ => None
      end
  | Remove id =>
      match wg q !! id with
      | Some (AtLock task) =>
          if mu_held_by_Stop p then None
          else Some {| mu_held_by_Stop := false;
                       svc := snd ((processTask_remove task ;;
                                    set_goroutine id AtSelect) q) |}
      | _ => None
      end
  | StopReturns =>
      if mu_held_by_Stop p && forallb is_exited (wg q)
      then Some {| mu_held_by_Stop := false; svc := q |}
      else None
  end.

Fixpoint run (schedule : list action) (p : pool) : option pool :=
  match schedule with
  | [] => Some p
  | a :: rest => p' ← perform a p; run rest p'
  end.

(** The pool a call of [Stop] leaves behind. *)
Definition after_Stop (q : QueueService) : pool :=
  let (r, q') := Stop q in
  {| mu_held_by_Stop := match r with StopWaits => true | _ => false end;
     svc := q' |}.

End Queue.

(** ** Predicates on traces and rows *)



(** ** Stub collaborators and a small pool, for the examples *)

(** UUIDs [task-0], [task-1], ...; a clock that ticks; a database answering
    as [exec] says. *)
Definition world (exec : nat -> option string) : World :=
  {| uuid_New := fun n => "task-" +:+ pretty n;
     time_Now := fun n => (1000 + Z.of_nat n)%Z;
     db_Exec := exec |}.

Definition db_up : nat -> option string := fun _ => None.

(** The database goes away after [k] statements. *)
Definition db_down_after (k : nat) : nat -> option string :=
  fun n => if (k <=? n)%nat then Some "connection refused" else None.

Definition page (url : string) : CrawlResult :=
  {| ID := "engine-id"; URL := url; Title := "Example Domain";
     HTMLVersion := "HTML5";
     InternalLinksCount := 2; ExternalLinksCount := 1;
     InaccessibleLinksCount := 0; HasLoginForm := false;
     Headings := {| H1 := 1; H2 := 0; H3 := 0; H4 := 0; H5 := 0; H6 := 0 |};
     BrokenLinks := []; ExternalLinks := ["https://www.iana.org/domains"];
     Status := CrawlStatusCompleted; ErrorMessage := None;
     CreatedAt := 7; UpdatedAt := 8 |}.

(** Two entries of Unicode's lower-case table, those of the letters outside
    ASCII whose lower case is an ASCII letter: U+0130 (capital I with dot
    above) gives [i] and U+212A (the Kelvin sign) gives [k].  The examples
    hold no other letter outside ASCII. *)
Definition To_LowerCase_sample (r : Z) : Z :=
  if decide (r = 0x130)%Z then 0x69%Z
  else if decide (r = 0x212A)%Z then 0x6B%Z
  else r.

Definition engine_ok : Crawler :=
  FirecrawlService.crawler To_LowerCase_sample (fun _ url => Analyzed (page url)).

Definition engine_boom : Crawler :=
  FirecrawlService.crawler To_LowerCase_sample (fun _ _ => Failed None "boom").

(** One worker, room for one task, an empty table. *)
Definition small_pool : QueueService :=
  NewQueueServiceWithConfig 1 1 3 5000000000 ∅.

(** Two workers, room for one task. *)
Definition pair_pool : QueueService :=
  NewQueueServiceWithConfig 2 1 3 5000000000 ∅.

(** [small_pool] and [pair_pool] after one accepted target: task [0], id
    [task-0], sits in the buffer, which is now full. *)
Definition one_queued : QueueService :=
  snd (EnqueueURL (world db_up) engine_ok "http://a.example" small_pool).

Definition pair_one_queued : QueueService :=
  snd (EnqueueURL (world db_up) engine_ok "http://a.example" pair_pool).

(** ** [internal/models]: the filters of a listing *)

(** [CrawlStatus] is a string type in Go; its four constants. *)
Definition CrawlStatus_String (status : CrawlStatus) : string :=
  match status with
  | CrawlStatusQueued => "queued"
  | CrawlStatusRunning => "running"
  | CrawlStatusCompleted => "completed"
  | CrawlStatusError => "error"
  end.

(** [IsValid] of any string converted to a [CrawlStatus]. *)
Definition IsValid (status : string) : bool :=
  bool_decide (status = "queued" ∨ status = "running"
               ∨ status = "completed" ∨ status = "error").

Module CrawlFilters.

(** [Status] is a pointer: [None] is [nil]. *)
Record t := {
  Status : option string;
  Search : string;
  Page : Z;
  PageSize : Z;
  SortBy : string;
  SortDir : string
}.

Definition DefaultFilters : t :=
  {| Status := None; Search := ""; Page := 1; PageSize := 10;
     SortBy := "updated_at"; SortDir := "desc" |}.

(** [Validate] writes the defaults into the filters it is called on and
    then checks the status: the filters come back changed also when the
    error is returned. *)
Definition Validate (f : t) : t * option string :=
  let f' :=
    {| Status := Status f;
       Search := Search f;
       Page := if decide (Page f < 1)%Z then 1%Z else Page f;
       PageSize := if decide (PageSize f < 1 ∨ 100 < PageSize f)%Z then 10%Z
                   else PageSize f;
       SortBy := if decide (SortBy f = "") then "updated_at" else SortBy f;
       SortDir := if decide (SortDir f ≠ "asc" ∧ SortDir f ≠ "desc") then "desc"
                  else SortDir f |} in
  match Status f with
  | Some status =>
      if negb (IsValid status) then (f', Some "invalid status filter")
      else (f', None)
  | None => (f', None)
  end.

End CrawlFilters.

(** ** [internal/models]: one page of a listing *)

(** Go's [int] on the 64-bit targets: arithmetic wraps around. *)
Definition int_wrap (z : Z) : Z := ((z + 2 ^ 63) mod 2 ^ 64 - 2 ^ 63)%Z.

Record PaginatedCrawlResults := {
  Results : list CrawlResult;
  Total : Z;
  Paginated_Page : Z;
  Paginated_PageSize : Z;
  TotalPages : Z
}.

(** What the second query of [GetCrawlResults] comes to: the rows scanned, or
    the step that failed. *)
Inductive rows_answer :=
| RowsScanned (results : list CrawlResult)
| QueryFails (err : string)
| ScanFails (err : string)
| RowsErr (err : string).


(** ** [internal/database]: the bulk operations of [CrawlStorage]

    [affected] is the error of [result.RowsAffected()], if any. *)

#[global] Instance HeadingCounts_eq_dec : EqDecision HeadingCounts.
Proof. solve_decision. Defined.

#[global] Instance BrokenLink_eq_dec : EqDecision BrokenLink.
Proof. solve_decision. Defined.

#[global] Instance CrawlResult_eq_dec : EqDecision CrawlResult.
Proof. solve_decision. Defined.

Module CrawlStorage.

(** The rows a [WHERE id IN (ids)] selects. *)
Definition listed (ids : list string) (db : gmap string CrawlResult)
    : gmap string CrawlResult :=
  filter (λ kv, kv.1 ∈ ids) db.

(** [DELETE FROM crawl_results WHERE id IN (ids)]; with no id the function
    returns before any statement. *)
Definition DeleteCrawlResults (exec affected : option string) (ids : list string)
    (db : gmap string CrawlResult) : gmap string CrawlResult * option string :=
  match ids with
  | [] => (db, None)
  | _ :: _ =>
      match exec with
      | Some err => (db, Some ("failed to delete crawl results: " +:+ err))
      | None =>
          let db' := filter (λ kv, kv.1 ∉ ids) db in
          let rowsAffected := size (listed ids db) in
          match affected with
          | Some err => (db', Some ("failed to get affected rows: " +:+ err))
          | None =>
              if decide (rowsAffected = 0)%nat
              then (db', Some "no crawl results were deleted")
              else (db', None)
          end
      end
  end.

(** [UPDATE crawl_results SET status = ?, updated_at = ?, error_message = NULL
    WHERE id IN (ids)].  MySQL reports as affected the rows the statement
    changed, or the rows it matched when the connection asks for found rows
    ([clientFoundRows]; the DSN is built outside this package). *)
Definition UpdateCrawlResultsBulkStatus (exec affected : option string)
    (clientFoundRows : bool) (now : Z) (ids : list string) (status : CrawlStatus)
    (db : gmap string CrawlResult) : gmap string CrawlResult * option string :=
  match ids with
  | [] => (db, None)
  | _ :: _ =>
      match exec with
      | Some err => (db, Some ("failed to update crawl results status: " +:+ err))
      | None =>
          let set := database.set_status status None now in
          let db' := map_imap (λ id row,
                       Some (if decide (id ∈ ids) then set row else row)) db in
          let rowsAffected :=
            if clientFoundRows then size (listed ids db)
            else size (filter (λ kv, set kv.2 ≠ kv.2) (listed ids db)) in
          match affected with
          | Some err => (db', Some ("failed to get affected rows: " +:+ err))
          | None =>
              if decide (rowsAffected = 0)%nat
              then (db', Some "no crawl results were updated")
              else (db', None)
          end
      end
  end.

(** A row [CleanupOldCrawlResults] removes: [created_at < cutoff AND status IN
    ('completed', 'error')]. *)
Definition stale (cutoff : Z) (row : CrawlResult) : Prop :=
  (CreatedAt row < cutoff)%Z
  ∧ (Status row = CrawlStatusCompleted ∨ Status row = CrawlStatusError).

#[global] Instance stale_dec cutoff row : Decision (stale cutoff row).
Proof. unfold stale. apply _. Defined.


Record CrawlStats := {
  stats_Total : Z;
  stats_Queued : Z;
  stats_Running : Z;
  stats_Completed : Z;
  stats_Error : Z
}.

(** [SUM(CASE WHEN status = ? THEN 1 ELSE 0 END)] over a table with rows. *)
Definition count_status (status : CrawlStatus) (db : gmap string CrawlResult) : Z :=
  Z.of_nat (size (filter (λ kv, Status kv.2 = status) db)).

Definition dquote : string := String "034"%char EmptyString.

(** What [Scan] answers when a [SUM] is [NULL]. *)
Definition scan_null (index : string) (column : string) : string :=
  "sql: Scan error on column index " +:+ index +:+ ", name " +:+ dquote
  +:+ column +:+ dquote +:+ ": converting NULL to int is unsupported".

(** [SELECT COUNT( * ), SUM(...), ... FROM crawl_results] scanned into five
    [int]s.  On a table without rows [COUNT] is 0 and every [SUM] is [NULL],
    which [Scan] cannot store in an [int]: the first one, column 1, fails. *)
Definition GetCrawlStats (exec : option string) (db : gmap string CrawlResult)
    : CrawlStats + string :=
  match exec with
  | Some err => inr ("failed to get crawl stats: " +:+ err)
  | None =>
      if decide (size db = 0)%nat
      then inr ("failed to get crawl stats: " +:+ scan_null "1" "queued")
      else inl {| stats_Total := Z.of_nat (size db);
                  stats_Queued := count_status CrawlStatusQueued db;
                  stats_Running := count_status CrawlStatusRunning db;
                  stats_Completed := count_status CrawlStatusCompleted db;
                  stats_Error := count_status CrawlStatusError db |}
  end.

(** [count] is the answer of the [SELECT COUNT( * )] and [rows], given the
    [LIMIT] and the [OFFSET], that of the [SELECT ... ORDER BY ... LIMIT ?
    OFFSET ?]: which rows match the [WHERE] clause and in which order they
    come is the database's business and is not modelled. *)
Definition GetCrawlResults (count : Z + string) (rows : Z → Z → rows_answer)
    (filters : CrawlFilters.t) : PaginatedCrawlResults + string :=
  match CrawlFilters.Validate filters with
  | (_, Some err) => inr ("invalid filters: " +:+ err)
  | (filters, None) =>
      match count with
      | inr err => inr ("failed to count results: " +:+ err)
      | inl total =>
          let offset :=
            int_wrap (int_wrap (CrawlFilters.Page filters - 1)
                      * CrawlFilters.PageSize filters) in
          let totalPages :=
            (int_wrap (int_wrap (total + CrawlFilters.PageSize filters) - 1)
             ÷ CrawlFilters.PageSize filters)%Z in
          match rows (CrawlFilters.PageSize filters) offset with
          | QueryFails err => inr ("failed to query crawl results: " +:+ err)
          | ScanFails err => inr ("failed to scan crawl result: " +:+ err)
          | RowsErr err => inr ("error iterating results: " +:+ err)
          | RowsScanned results =>
              inl {| Results := results; Total := total;
                     Paginated_Page := CrawlFilters.Page filters;
                     Paginated_PageSize := CrawlFilters.PageSize filters;
                     TotalPages := totalPages |}
          end
      end
  end.

End CrawlStorage.

(** ** [internal/services/queue.go]: statistics and invariants *)

(** The map [GetQueueStats] returns, key by key. *)
Record QueueStats := {
  queue_length : Z;
  active_tasks : Z;
  stats_workers : Z;
  stats_running : bool
}.

Definition GetQueueStats (q : QueueService) : QueueStats :=
  {| queue_length := Z.of_nat (length (queue q));
     active_tasks := Z.of_nat (size (activeTasks q));
     stats_workers := workers q;
     stats_running := running q |}.

(** The buffer holds no more than the capacity of the channel. *)
Definition within_capacity (q : QueueService) : Prop :=
  (queue_length (GetQueueStats q) ≤ bufferSize q)%Z.

(** Every pointer the service holds is an allocated task, and the in-flight
    map files each task under the task's own id. *)
Definition pointers_valid (q : QueueService) : Prop :=
  (∀ task, task ∈ queue q → task < length (heap q))
  ∧ (∀ id task, activeTasks q !! id = Some task →
       ∃ t, heap q !! task = Some t ∧ task_ID t = id)
  ∧ (∀ w task, wg q !! w = Some (AtLock task) → task < length (heap q)).

Section Callers.

Context (W : World) (crawler : Crawler).

(** Targets submitted one after the other, as a caller does. *)
Fixpoint EnqueueEach (urls : list string) : M (list (outcome CrawlResult)) :=
  match urls with
  | [] => ret []
  | url :: rest =>
      let* o := EnqueueURL W crawler url in
      let* os := EnqueueEach rest in
      ret (o :: os)
  end.

End Callers.

Definition is_Return {A} (o : outcome A) : bool :=
  match o with Return _ => true | _ => false end.



(** What [EnqueueURL] and [RequeueTask] can do to the channel, the task heap
    and the in-flight map: at most one task is made, filed under [id] and
    sent, and the send needs room. *)
Definition admission (id : string) (q q' : QueueService) : Prop :=
  bufferSize q' = bufferSize q
  ∧ wg q' = wg q
  ∧ (heap q' = heap q
     ∨ ∃ t, heap q' = (heap q ++ [t])%list ∧ task_ID t = id)
  ∧ (queue q' = queue q
     ∨ (queue q' = (queue q ++ [length (heap q)])%list
        ∧ length (heap q) < length (heap q')
        ∧ (Z.of_nat (length (queue q)) < bufferSize q)%Z))
  ∧ (activeTasks q' = activeTasks q
     ∨ (activeTasks q' = <[id := length (heap q)]> (activeTasks q)
        ∧ ∃ t, heap q' = (heap q ++ [t])%list ∧ task_ID t = id)
     ∨ activeTasks q' = delete id (activeTasks q)).

(** ** [internal/services]: the login-form heuristic of the Firecrawl service *)

(** The double quote. *)
Definition dq : string := String "034"%char EmptyString.

(** [type="password"], [type='password'], [input[type="password"]],
    [input[type='password']] *)
Definition passwordPatterns : list string :=
  [ "type=" +:+ dq +:+ "password" +:+ dq;
    "type='password'";
    "input[type=" +:+ dq +:+ "password" +:+ dq +:+ "]";
    "input[type='password']" ].

Definition loginIndicators : list string :=
  [ "login"; "signin"; "sign-in"; "log-in"; "auth"; "authentication";
    "username"; "email"; "user"; "account";
    "password"; "pwd"; "pass";
    "submit"; "button";
    "loginform"; "authform"; "signupform" ].

(** The [for ... range loginIndicators] loop: [indicatorCount]. *)
Fixpoint countIndicators (htmlLower : string) (indicators : list string) : Z :=
  match indicators with
  | [] => 0
  | indicator :: rest =>
      ((if strings.Contains htmlLower indicator then 1 else 0)
       + countIndicators htmlLower rest)%Z
  end.

Definition detectLoginForm (To_LowerCase : Z → Z) (html : string) : bool :=
  let htmlLower := strings.ToLower To_LowerCase html in
  let hasPasswordField :=
    existsb (strings.Contains htmlLower) passwordPatterns in
  if negb hasPasswordField then false
  else bool_decide (2 ≤ countIndicators htmlLower loginIndicators)%Z.

(** ** [internal/middleware]: authentication and rate limiting *)

Module middleware.

(** [strings.SplitN(s, " ", 2)]: [s] cut at its first space, or [s] alone
    when it has none. *)
Fixpoint cut_at_space (s : string) : option (string * string) :=
  match s with
  | EmptyString => None
  | String c s' =>
      if decide (c = " "%char) then Some (EmptyString, s')
      else match cut_at_space s' with
           | Some (before, after) => Some (String c before, after)
           | None => None
           end
  end.

Definition SplitN_space_2 (s : string) : list string :=
  match cut_at_space s with
  | Some (before, after) => [before; after]
  | None => [s]
  end.

(** [APIKeys] maps the hex SHA-256 of a key to the key's name. *)
Record AuthConfig := {
  APIKeys : gmap string string;
  SkipPaths : list string
}.

Section Auth.

(** [fmt.Sprintf("%x", sha256.Sum256([]byte(key)))] *)
Context (sha256hex : string → string).

Definition AddAPIKey (key name : string) (ac : AuthConfig) : AuthConfig :=
  {| APIKeys := <[sha256hex key := name]> (APIKeys ac);
     SkipPaths := SkipPaths ac |}.

(** [keys]: the pairs of [cfg.APIKeys], key then name, in the order the
    [range] loop visits them. *)
Definition NewAuthConfig (keys : list (string * string)) : AuthConfig :=
  foldl (λ ac kn, AddAPIKey kn.1 kn.2 ac)
    {| APIKeys := ∅; SkipPaths := ["/health"; "/api/health"; "/"] |} keys.

Definition shouldSkipAuth (ac : AuthConfig) (path : string) : bool :=
  existsb (λ skipPath, bool_decide (path = skipPath)
                       || strings.HasPrefix path skipPath) (SkipPaths ac).

(** What the middleware does with a request: hand it to the next handler
    (with the name and hash of the key it recognised, if it looked), or
    answer 401 with a message. *)
Inductive verdict :=
| Next (api_key : option (string * string))
| Unauthorized (error : string).

(** [path] is [c.Request().URL.Path], [authHeader] the [Authorization]
    header. *)
Definition AuthMiddleware (config : AuthConfig) (path authHeader : string) : verdict :=
  if shouldSkipAuth config path then Next None
  else if decide (authHeader = "") then Unauthorized "Missing authorization header"
  else
    match SplitN_space_2 authHeader with
    | [scheme; apiKey] =>
        if decide (scheme = "Bearer") then
          if decide (apiKey = "") then Unauthorized "Missing API key"
          else
            let keyHash := sha256hex apiKey in
            match APIKeys config !! keyHash with
            | Some name => Next (Some (name, keyHash))
            | None => Unauthorized "Invalid API key"
            end
        else Unauthorized "Invalid authorization format. Use 'Bearer <api-key>'"
    | _ => Unauthorized "Invalid authorization format. Use 'Bearer <api-key>'"
    end.

End Auth.

(** The limiter: for each key the times of the requests let through. *)
Record RateLimitConfig := {
  RequestsPerMinute : Z;
  WindowSize : Z
}.

(** One request through [RateLimitMiddleware], for the key [KeyGenerator]
    gave it, at time [now]: [true] when it is passed on, [false] for 429. *)
Definition RateLimitMiddleware (config : RateLimitConfig) (key : string) (now : Z)
    (requests : gmap string (list Z)) : bool * gmap string (list Z) :=
  let requests1 :=
    match requests !! key with
    | Some times =>
        let cutoff := (now - WindowSize config)%Z in
        <[key := filter (λ reqTime, (cutoff < reqTime)%Z) times]> requests
    | None => requests
    end in
  let current := default [] (requests1 !! key) in
  if decide (RequestsPerMinute config ≤ Z.of_nat (length current))%Z
  then (false, requests1)
  else (true, <[key := (current ++ [now])%list]> requests1).






(** No key has more stored times than the limit. *)
Definition bounded (config : RateLimitConfig)
    (requests : gmap string (list Z)) : Prop :=
  ∀ key times, requests !! key = Some times →
    (Z.of_nat (length times) ≤ Z.max 0 (RequestsPerMinute config))%Z.

End middleware.

(** ** [internal/handlers] *)

Module handlers.

(** [c.JSON(code, body)], and [c.JSON(code, map[string]string{"error": ...})]. *)
Inductive reply (A : Type) :=
| JSON (code : Z) (body : A)
| JSONError (code : Z) (error : string).
Arguments JSON {A} code body.
Arguments JSONError {A} code error.

Definition StatusOK : Z := 200.
Definition StatusCreated : Z := 201.
Definition StatusPartialContent : Z := 206.
Definition StatusBadRequest : Z := 400.
Definition StatusNotFound : Z := 404.
Definition StatusTooManyRequests : Z := 429.
Definition StatusInternalServerError : Z := 500.

(** *** The query parameters of [GetCrawlResults]

    [page] and [pageSize] are what [strconv.Atoi] makes of the parameter:
    [None] when it is not a number (an absent parameter is the empty string,
    which is not a number either); the others are the parameters as sent,
    empty when absent. *)
Definition allowedFields : list string :=
  [ "url"; "title"; "status"; "created_at"; "updated_at";
    "internal_links_count"; "external_links_count" ].

Definition parseFilters (page pageSize : option Z)
    (search status sortBy sortDir : string) : CrawlFilters.t :=
  let filters := CrawlFilters.DefaultFilters in
  {| CrawlFilters.Page :=
       match page with
       | Some page => if decide (0 < page)%Z then page
                      else CrawlFilters.Page filters
       | None => CrawlFilters.Page filters
       end;
     CrawlFilters.PageSize :=
       match pageSize with
       | Some pageSize =>
           if decide (0 < pageSize ∧ pageSize ≤ 100)%Z then pageSize
           else CrawlFilters.PageSize filters
       | None => CrawlFilters.PageSize filters
       end;
     CrawlFilters.Search :=
       if decide (search ≠ "") then search else CrawlFilters.Search filters;
     CrawlFilters.Status :=
       if decide (status ≠ "") then
         if IsValid status then Some status else CrawlFilters.Status filters
       else CrawlFilters.Status filters;
     CrawlFilters.SortBy :=
       if decide (sortBy ≠ "") then
         if bool_decide (sortBy ∈ allowedFields) then sortBy
         else CrawlFilters.SortBy filters
       else CrawlFilters.SortBy filters;
     CrawlFilters.SortDir :=
       if decide (sortDir = "asc" ∨ sortDir = "desc") then sortDir
       else CrawlFilters.SortDir filters |}.

(** [GetCrawlResults], the handler. *)
Definition GetCrawlResults (count : Z + string) (rows : Z → Z → rows_answer)
    (page pageSize : option Z) (search status sortBy sortDir : string)
    : reply PaginatedCrawlResults :=
  match CrawlStorage.GetCrawlResults count rows
          (parseFilters page pageSize search status sortBy sortDir) with
  | inr _ => JSONError StatusInternalServerError "Failed to retrieve crawl results"
  | inl results => JSON StatusOK results
  end.

Record CrawlRequestResponse := {
  Response_ID : string;
  Response_URL : string;
  Response_Status : CrawlStatus;
  Message : string
}.

(** The body of [RerunCrawlResults]; the key [errors] is left out of the
    JSON when the list is empty. *)
Record RerunResponse := {
  rerun_message : string;
  success_count : Z;
  total_requested : Z;
  errors : list string
}.

(** The body of [GetCrawlStatus]: for a task in flight the keys [id],
    [status], [url] and [queued_at]; for a row the keys [id], [status],
    [url], [created_at], [updated_at] and, when there is one,
    [error_message]. *)
Inductive StatusResponse :=
| OfTask (id : string) (status : CrawlStatus) (url : string) (queued_at : Z)
| OfRow (id : string) (status : CrawlStatus) (url : string)
        (created_at updated_at : Z) (error_message : option string).

Section Handlers.

Context (W : World) (crawler : Crawler).

(** [validate] is [h.validator.Struct]: the text of its error, if any. *)
Context (validate_url : string → option string).
Context (validate_ids : list string → option string).

(** [CreateCrawlRequest]; [bound] is the [url] of the body when [c.Bind]
    succeeds. *)
Definition CreateCrawlRequest (bound : option string)
    : M (outcome (reply CrawlRequestResponse)) :=
  match bound with
  | None => ret (Return (JSONError StatusBadRequest "Invalid request format"))
  | Some url =>
      match validate_url url with
      | Some err =>
          ret (Return (JSONError StatusBadRequest
                         ("Invalid request data: " +:+ err)))
      | None =>
          let* r := EnqueueURL W crawler url in
          match r with
          | Error err =>
              if strings.Contains err "queue is full"
              then ret (Return (JSONError StatusTooManyRequests err))
              else ret (Return (JSONError StatusBadRequest err))
          | Return result =>
              ret (Return (JSON StatusCreated
                     {| Response_ID := ID result; Response_URL := URL result;
                        Response_Status := models.Status result;
                        Message := "URL added to crawl queue successfully" |}))
          | Panic msg => ret (Panic msg)
          end
      end
  end.

(** The handlers reach the table through [h.storage], the same table the
    queue writes to. *)
Definition storage_UpdateCrawlResultsBulkStatus (affected : option string)
    (clientFoundRows : bool) (ids : list string) (status : CrawlStatus)
    : M (option string) :=
  match ids with
  | [] => ret None
  | _ :: _ =>
      let* now := time_Now_ W in
      let* exec := sql_exec W in
      let* db := gets storage in
      let (db', err) :=
        CrawlStorage.UpdateCrawlResultsBulkStatus exec affected clientFoundRows
          now ids status db in
      modify (set_storage db') ;;
      ret err
  end.

Definition storage_GetCrawlResult (id : string) : M (CrawlResult + string) :=
  let* exec := sql_exec W in
  let* db := gets storage in
  ret (database.GetCrawlResult exec id db).

(** The loop [for _, id := range req.IDs] of [RerunCrawlResults]. *)
Fixpoint requeue_each (ids : list string) (successCount : Z)
    (errors : list string) : M (outcome (Z * list string)) :=
  match ids with
  | [] => ret (Return (successCount, errors))
  | id :: rest =>
      let* r := RequeueTask W id in
      match r with
      | Error err =>
          requeue_each rest successCount
            (errors ++ ["Failed to requeue " +:+ id +:+ ": " +:+ err])
      | Return _ => requeue_each rest (successCount + 1)%Z errors
      | Panic msg => ret (Panic msg)
      end
  end.

(** [RerunCrawlResults]; [bound] is the [ids] of the body when [c.Bind]
    succeeds. *)
Definition RerunCrawlResults (affected : option string) (clientFoundRows : bool)
    (bound : option (list string)) : M (outcome (reply RerunResponse)) :=
  match bound with
  | None => ret (Return (JSONError StatusBadRequest "Invalid request format"))
  | Some ids =>
      match validate_ids ids with
      | Some err =>
          ret (Return (JSONError StatusBadRequest
                         ("Invalid request data: " +:+ err)))
      | None =>
          let* err := storage_UpdateCrawlResultsBulkStatus affected
                        clientFoundRows ids CrawlStatusQueued in
          match err with
          | Some _ =>
              ret (Return (JSONError StatusInternalServerError
                             "Failed to update crawl results status"))
          | None =>
              let* r := requeue_each ids 0 [] in
              match r with
              | Return (successCount, errors) =>
                  let response :=
                    {| rerun_message := "Rerun operation completed";
                       success_count := successCount;
                       total_requested := Z.of_nat (length ids);
                       errors := errors |} in
                  if decide (0 < length errors)
                  then ret (Return (JSON StatusPartialContent response))
                  else ret (Return (JSON StatusOK response))
              | Error msg => ret (Error msg)
              | Panic msg => ret (Panic msg)
              end
          end
      end
  end.

(** [GetCrawlStatus]: the in-flight map is asked first, the table only for
    an id that is not in flight. *)
Definition GetCrawlStatus (id : string) : M (reply StatusResponse) :=
  if decide (id = "") then ret (JSONError StatusBadRequest "Missing crawl result ID")
  else
    let* found := gets (GetActiveTask id) in
    match found with
    | Some task =>
        let* t := load task in
        ret (JSON StatusOK
               (OfTask (task_ID t) (task_Status t) (task_URL t) (task_CreatedAt t)))
    | None =>
        let* got := storage_GetCrawlResult id in
        match got with
        | inr err =>
            if strings.Contains err "not found"
            then ret (JSONError StatusNotFound "Crawl result not found")
            else ret (JSONError StatusInternalServerError
                        "Failed to retrieve crawl status")
        | inl result =>
            ret (JSON StatusOK
                   (OfRow (ID result) (models.Status result) (URL result)
                      (CreatedAt result) (UpdatedAt result) (ErrorMessage result)))
        end
    end.

End Handlers.

End handlers.

(** ** A small table and configurations, for the examples *)

Definition row_of (id : string) (status : CrawlStatus) (created : Z) : CrawlResult :=
  {| ID := id; URL := "http://" +:+ id +:+ ".example"; Title := "";
     HTMLVersion := "";
     InternalLinksCount := 0; ExternalLinksCount := 0;
     InaccessibleLinksCount := 0; HasLoginForm := false;
     Headings := noHeadings; BrokenLinks := []; ExternalLinks := [];
     Status := status; ErrorMessage := None;
     CreatedAt := created; UpdatedAt := created |}.

(** Row [a] is finished and old, row [b] is waiting. *)
Definition two_rows : gmap string CrawlResult :=
  <["a" := row_of "a" CrawlStatusCompleted 10]>
    (<["b" := row_of "b" CrawlStatusQueued 20]> ∅).

(** One worker, room for two tasks, the table [two_rows]. *)
Definition stocked_pool : QueueService :=
  NewQueueServiceWithConfig 1 2 3 5000000000 two_rows.


(** A stand-in for the hash. *)
Definition toy_hash (key : string) : string := "#" +:+ key.

(** One key, and only the health path open. *)
Definition one_key : middleware.AuthConfig :=
  {| middleware.APIKeys := {[ toy_hash "secret" := "ci" ]};
     middleware.SkipPaths := ["/health"] |}.

(** Two requests in sixty time units. *)
Definition two_per_minute : middleware.RateLimitConfig :=
  {| middleware.RequestsPerMinute := 2; middleware.WindowSize := 60 |}.

(** Filters with nothing right about them. *)
Definition wild_filters : CrawlFilters.t :=
  {| CrawlFilters.Status := Some "paused"; CrawlFilters.Search := "";
     CrawlFilters.Page := 0; CrawlFilters.PageSize := 500;
     CrawlFilters.SortBy := ""; CrawlFilters.SortDir := "up" |}.

(** The first page of a listing of 21 rows, as an empty page. *)
Definition first_of_21 : PaginatedCrawlResults :=
  {| Results := []; Total := 21; Paginated_Page := 1;
     Paginated_PageSize := 10; TotalPages := 3 |}.

(** A struct validator that lets everything through. *)
Definition no_check {A} (_ : A) : option string := None.

(** The report of a rerun of [a], which has a row in [two_rows], and of
    [zzz], which has none. *)
Definition rerun_a_zzz : handlers.RerunResponse :=
  {| handlers.rerun_message := "Rerun operation completed";
     handlers.success_count := 1;
     handlers.total_requested := 2;
     handlers.errors :=
       ["Failed to requeue zzz: failed to get crawl result: crawl result not found"] |}.

(** The statistics of [two_rows]. *)
Definition stats_of_two_rows : CrawlStorage.CrawlStats :=
  {| CrawlStorage.stats_Total := 2; CrawlStorage.stats_Queued := 1;
     CrawlStorage.stats_Running := 0; CrawlStorage.stats_Completed := 1;
     CrawlStorage.stats_Error := 0 |}.

(* ===================================================================== *)
(** * Part II: properties *)
(* ===================================================================== *)

(** ** Strings *)

Lemma HasPrefix_app (s prefix : string) :
  strings.HasPrefix s prefix = true ↔ ∃ rest, s = prefix +:+ rest.
Proof.
  revert s. induction prefix as [|p prefix IH]; intros s; simpl.
  - split; [intros _; by exists s | done].
  - destruct s as [|c s].
    + split; [done | intros [rest Hr]; discriminate].
    + destruct (decide (p = c)) as [->|Hne].
      * rewrite IH. split; intros [rest Hr]; exists rest.
        -- by rewrite Hr.
        -- by injection Hr.
      * split; [done | intros [rest Hr]; injection Hr; congruence].
Qed.

Lemma Contains_app (s substr : string) :
  strings.Contains s substr = true ↔ ∃ before after, s = before +:+ substr +:+ after.
Proof.
  induction s as [|c s IH]; simpl.
  - rewrite orb_false_r, HasPrefix_app. split.
    + intros [rest Hr]. by exists "", rest.
    + intros [before [after Hr]]. destruct before; [by exists after | discriminate].
  - rewrite orb_true_iff, HasPrefix_app, IH. split.
    + intros [[rest Hr] | [before [after Hr]]].
      * by exists "", rest.
      * exists (String c before), after. simpl. by rewrite Hr.
    + intros [before [after Hr]]. destruct before as [|b before].
      * left. by exists after.
      * right. exists before, after. simpl in Hr. by injection Hr.
Qed.

Lemma scanPatterns_None (lowerURL : string) (patterns : list string) :
  FirecrawlService.scanPatterns lowerURL patterns = None ↔
  ∀ pattern, In pattern patterns → strings.Contains lowerURL pattern = false.
Proof.
  induction patterns as [|p ps IH]; simpl.
  - split; [intros _ ? [] | done].
  - destruct (strings.Contains lowerURL p) eqn:Hc.
    + split; [done | intros H; specialize (H p (or_introl eq_refl)); congruence].
    + rewrite IH. split.
      * intros H x [<-|Hx]; [done | by apply H].
      * intros H x Hx. apply H. by right.
Qed.

Example ValidateURL_plain :
  FirecrawlService.ValidateURL To_LowerCase_sample "https://example.com/a?b=1" = None.
Proof. reflexivity. Qed.

(** A target that is not all ASCII is lower-cased rune by rune: the capital I
    with dot above (U+0130, the bytes [C4 B0]) becomes [i], the target then
    holds [file:] and is refused. *)
Example ValidateURL_dotted_I :
  strings.ToLower To_LowerCase_sample "https://example.com/fİle:x"
  = "https://example.com/file:x"
  ∧ FirecrawlService.ValidateURL To_LowerCase_sample "https://example.com/fİle:x"
    = Some "potentially malicious URL pattern detected".
Proof. split; vm_compute; reflexivity. Qed.

(** Bytes that are no UTF-8 are replaced by U+FFFD, and a sequence that is
    already lower case is kept. *)
Example ToLower_invalid_byte :
  strings.ToLower To_LowerCase_sample (String (utf8.of_byte 0xFF) "Aé")
  = utf8.bytes [0xEF; 0xBF; 0xBD]%Z +:+ "aé".
Proof. vm_compute; reflexivity. Qed.

Example ValidateURL_upper_scheme :
  FirecrawlService.ValidateURL To_LowerCase_sample "JavaScript:alert(1)"
  = Some "URL must start with http:// or https://".
Proof. reflexivity. Qed.

(** C4 (as amended).  [ValidateURL] accepts a target exactly when it is not
    empty, starts with [http://] or [https://] (in lower case), and its
    lower-cased text holds none of [javascript:], [data:], [file:], [ftp:] at
    any position; so every class the specification lists is refused, and so
    is a target that merely contains one of the four patterns.  The
    lower-cased text is that of [strings.ToLower], whatever Unicode's table
    [To_LowerCase] holds. *)
Theorem ValidateURL_accepts_iff (To_LowerCase : Z → Z) (target : string) :
  (FirecrawlService.ValidateURL To_LowerCase target = None ↔
     target ≠ ""
     ∧ ((∃ rest, target = "http://" +:+ rest) ∨ (∃ rest, target = "https://" +:+ rest))
     ∧ ∀ pattern, In pattern FirecrawlService.maliciousPatterns →
         ¬ ∃ before after,
             strings.ToLower To_LowerCase target = before +:+ pattern +:+ after)
  ∧ (spec_invalid_target To_LowerCase target = true →
     FirecrawlService.ValidateURL To_LowerCase target ≠ None).
Proof.
  assert (Hiff : FirecrawlService.ValidateURL To_LowerCase target = None ↔
     target ≠ ""
     ∧ ((∃ rest, target = "http://" +:+ rest) ∨ (∃ rest, target = "https://" +:+ rest))
     ∧ ∀ pattern, In pattern FirecrawlService.maliciousPatterns →
         ¬ ∃ before after,
             strings.ToLower To_LowerCase target = before +:+ pattern +:+ after).
  { unfold FirecrawlService.ValidateURL.
    destruct (decide (target = "")) as [->|Hne];
      [split; [done | intros [? _]; done]|].
    rewrite <- !HasPrefix_app.
    destruct (strings.HasPrefix target "http://") eqn:H1;
      destruct (strings.HasPrefix target "https://") eqn:H2; cbn [negb andb];
      try (rewrite scanPatterns_None; split;
           [ intros H; split_and!; [done | auto | ];
             intros p Hp; rewrite <- Contains_app, (H p Hp); done
           | intros (_ & _ & H) p Hp; specialize (H p Hp);
             rewrite <- Contains_app in H; by destruct (strings.Contains _ p) ]).
    split; [done | intros (_ & [?|?] & _); done]. }
  split; [exact Hiff|].
  intros Hspec Hacc. apply Hiff in Hacc as (Hne & Hpre & Hpat).
  unfold spec_invalid_target in Hspec.
  rewrite !orb_true_iff, andb_true_iff, !negb_true_iff, bool_decide_eq_true in Hspec.
  destruct Hspec as [[->|[H1 H2]]|Hex]; [done | |].
  - rewrite <- !HasPrefix_app in Hpre. destruct Hpre; congruence.
  - apply existsb_exists in Hex as (p & Hp & Hpref).
    apply HasPrefix_app in Hpref as [rest Hr].
    apply (Hpat p Hp). by exists "", rest.
Qed.

(** C4, the claim as worded fails: this target is not empty, starts with
    [https://] and starts with no disallowed scheme, and is refused. *)
Lemma ValidateURL_refuses_inner_pattern :
  spec_invalid_target To_LowerCase_sample "https://example.com/metadata:v1"
  = false
  ∧ FirecrawlService.ValidateURL To_LowerCase_sample
      "https://example.com/metadata:v1"
    = Some "potentially malicious URL pattern detected".
Proof. split; reflexivity. Qed.

(** ** The queue *)

Section QueueProperties.

Context (W : World) (crawler : Crawler).

Ltac unfold_ops :=
  unfold EnqueueURL, RequeueTask, processTask, processTask_work,
    processTask_remove, storage_SaveCrawlResult, storage_UpdateCrawlStatus,
    storage_GetCrawlResult, crawler_AnalyzeURL, activeTasks_insert,
    activeTasks_delete, queue_send_or_default, new_task, load, store_Status,
    uuid_New_String, time_Now_, sql_exec, GetActiveTask,
    database.SaveCrawlResult, database.UpdateCrawlStatus,
    database.GetCrawlResult,
    bind, ret, modify, gets, log.

Lemma send_has_room (q : QueueService) :
  (Z.of_nat (length (queue q)) < bufferSize q)%Z →
  ∀ A (a b : A),
    (if decide (Z.of_nat (length (queue q)) < bufferSize q)%Z then a else b) = a.
Proof. intros H A a b. by destruct (decide _). Qed.

Lemma send_has_no_room (q : QueueService) :
  (bufferSize q ≤ Z.of_nat (length (queue q)))%Z →
  ∀ A (a b : A),
    (if decide (Z.of_nat (length (queue q)) < bufferSize q)%Z then a else b) = b.
Proof. intros H A a b. destruct (decide _); [lia | done]. Qed.

(** C2.  A target the engine's [ValidateURL] refuses makes [EnqueueURL]
    return an error and leave the whole service as it was: nothing is saved,
    the in-flight map, the channel and the trace of calls are unchanged. *)
Theorem EnqueueURL_invalid_no_effect (url err : string) (q : QueueService) :
  ValidateURL crawler url = Some err →
  EnqueueURL W crawler url q = (Error ("invalid URL: " +:+ err), q).
Proof. intros Hv. unfold EnqueueURL. by rewrite Hv. Qed.

(** C3 (as amended).  For a valid target, when the initial save goes through,
    the channel has not been closed and its buffer has room, [EnqueueURL]
    returns the queued record, and [GetActiveTask] on its id finds the task,
    whose status is [queued]; the task is the last one in the buffer. *)
Theorem EnqueueURL_accepts (url : string) (q : QueueService) :
  ValidateURL crawler url = None →
  db_Exec W (n_db (made q)) = None →
  queue_closed q = false →
  (Z.of_nat (length (queue q)) < bufferSize q)%Z →
  ∃ result q' task t,
    EnqueueURL W crawler url q = (Return result, q')
    ∧ ID result = uuid_New W (n_uuid (made q))
    ∧ Status result = CrawlStatusQueued
    ∧ GetActiveTask (ID result) q' = Some task
    ∧ heap q' !! task = Some t
    ∧ task_Status t = CrawlStatusQueued
    ∧ task_ID t = ID result
    ∧ task_URL t = url
    ∧ queue q' = (queue q ++ [task])%list.
Proof.
  intros Hv Hdb Hopen Hroom.
  unfold_ops. rewrite Hv. cbn. rewrite Hdb. cbn. rewrite Hopen.
  rewrite (send_has_room q Hroom). cbn.
  eexists _, _, (length (heap q)), _. split; [reflexivity|]. cbn.
  split_and!;
    [ reflexivity | reflexivity | apply lookup_insert_eq
    | by apply list_lookup_middle | reflexivity .. ].
Qed.

(** C1 (as amended).  When the send of [EnqueueURL] is reached (valid target,
    initial save gone through, channel open) and finds the buffer full, the
    call returns the queue-full error, the id is absent from the in-flight
    map, nothing was added to the buffer, and [UpdateCrawlStatus] was called
    with [error] and "Queue is full" as the last action.  When that call goes
    through, the stored row has status [error] and that message. *)
Theorem EnqueueURL_queue_full (url : string) (q : QueueService) :
  ValidateURL crawler url = None →
  db_Exec W (n_db (made q)) = None →
  queue_closed q = false →
  (bufferSize q ≤ Z.of_nat (length (queue q)))%Z →
  let id := uuid_New W (n_uuid (made q)) in
  ∃ q',
    EnqueueURL W crawler url q
      = (Error "queue is full, please try again later", q')
    ∧ GetActiveTask id q' = None
    ∧ queue q' = queue q
    ∧ (∃ evs, trace q' = (trace q ++ evs ++
                 [UpdateCalled id CrawlStatusError (Some "Queue is full")])%list)
    ∧ (db_Exec W (S (n_db (made q))) = None →
       ∃ row, storage q' !! id = Some row
              ∧ Status row = CrawlStatusError
              ∧ ErrorMessage row = Some "Queue is full").
Proof.
  intros Hv Hsave Hopen Hfull id. subst id.
  unfold_ops. rewrite Hv. cbn. rewrite Hsave. cbn. rewrite Hopen.
  rewrite (send_has_no_room q Hfull). cbn.
  destruct (db_Exec W (S (n_db (made q)))) as [e|] eqn:Hupd; cbn;
    (eexists; split; [reflexivity|]); cbn;
    (split_and!;
      [ apply lookup_delete_eq
      | reflexivity
      | rewrite <- !(assoc_L (++)); cbn;
        match goal with
        | |- ∃ evs, (_ ++ ?l)%list = _ => exists (removelast l)
        end; reflexivity
      | ]).
  - done.
  - intros _. rewrite lookup_alter_eq, lookup_insert_eq. cbn. eauto.
Qed.

Ltac step_ops :=
  first
  [ rewrite list_lookup_total_insert_eq by eauto using lookup_lt_Some
  | erewrite list_lookup_total_correct by eassumption
  | match goal with
    | H : db_Exec _ ?n = _ |- context [db_Exec _ ?n] => rewrite H
    | H : AnalyzeURL _ ?n ?u = _ |- context [AnalyzeURL _ ?n ?u] => rewrite H
    | H : queue_closed ?q = _ |- context [queue_closed ?q] => rewrite H
    end
  | match goal with
    | |- context [match db_Exec ?w ?n with _ => _ end] =>
        destruct (db_Exec w n) eqn:?
    | |- context [match AnalyzeURL ?c ?n ?u with _ => _ end] =>
        destruct (AnalyzeURL c n u) eqn:?
    end ];
  cbn.

Ltac run_ops := unfold_ops; cbn; repeat step_ops.

(** C5 (as amended).  When the engine fails, [processTask] makes exactly
    these calls: the status update to [running], one [AnalyzeURL], the status
    update to [error] carrying the engine's message, and the removal from the
    in-flight map; the task is not sent to the channel again and the retry
    settings play no part.  When that second update goes through and the row
    exists, the row ends with status [error] and the engine's message. *)
Theorem processTask_engine_failure (task : ptr) (t : CrawlTask)
    (partial : option CrawlResult) (err : string) (q : QueueService) :
  heap q !! task = Some t →
  AnalyzeURL crawler (n_analyze (made q)) (task_URL t) = Failed partial err →
  let q' := snd (processTask W crawler task q) in
  trace q' = (trace q ++
      [ UpdateCalled (task_ID t) CrawlStatusRunning None;
        AnalyzeCalled (task_URL t);
        UpdateCalled (task_ID t) CrawlStatusError (Some err);
        ActiveDelete (task_ID t) ])%list
  ∧ queue q' = queue q
  ∧ (∀ m d, processTask W crawler task (set_maxRetries m (set_retryDelay d q))
            = (tt, set_maxRetries m (set_retryDelay d q')))
  ∧ (db_Exec W (S (n_db (made q))) = None →
     ∀ row, storage q !! task_ID t = Some row →
     ∃ row', storage q' !! task_ID t = Some row'
             ∧ Status row' = CrawlStatusError
             ∧ ErrorMessage row' = Some err).
Proof.
  intros Ht Ha q'. subst q'. split_and!.
  - run_ops; by rewrite <- !(assoc_L (++)).
  - run_ops; reflexivity.
  - intros m d. run_ops; reflexivity.
  - intros Hupd row Hrow. run_ops.
    + rewrite !lookup_alter_eq, Hrow. cbn. eauto.
    + rewrite !lookup_alter_eq, Hrow. cbn. eauto.
Qed.

(** C7.  For an id with no row in the table [RequeueTask] returns an error
    and changes nothing: the in-flight map, the channel, the table and the
    task heap are as before, and the only call made is the lookup itself (no
    status update).  The error is the not-found one when the lookup query
    runs ([sql.ErrNoRows]); when the query itself fails it is another text. *)
Theorem RequeueTask_not_found (id : string) (q : QueueService) :
  storage q !! id = None →
  ∃ msg q',
    RequeueTask W id q = (Error msg, q')
    ∧ activeTasks q' = activeTasks q
    ∧ queue q' = queue q
    ∧ storage q' = storage q
    ∧ heap q' = heap q
    ∧ trace q' = (trace q ++ [GetCalled id])%list
    ∧ (db_Exec W (n_db (made q)) = None →
       msg = "failed to get crawl result: crawl result not found")
    ∧ (∀ e, db_Exec W (n_db (made q)) = Some e →
       msg = "failed to get crawl result: failed to get crawl result: " +:+ e
       ∧ msg ≠ "failed to get crawl result: crawl result not found").
Proof.
  intros Hrow. unfold_ops. cbn.
  destruct (db_Exec W (n_db (made q))) as [e|] eqn:Hdb; cbn.
  - eexists _, _. split; [reflexivity|]. cbn.
    split_and!; try reflexivity; try done.
    intros e' [= <-]. split; [reflexivity | intros [=]].
  - rewrite Hrow. cbn. eexists _, _. split; [reflexivity|]. cbn.
    split_and!; try reflexivity; try done.
Qed.

(** C10.  On the queue-full path of [EnqueueURL] and of [RequeueTask] the
    status update to [error] is attempted and its result is dropped:
    [UpdateCrawlStatus] with [error] and "Queue is full" is the last call
    made, after the removal from the in-flight map, and its statement is
    sent to the database; the caller gets the error "queue is full, please
    try again later" whatever that statement answers; when it fails, the row
    keeps the status [queued] (and no error message) it had just been given,
    and when it goes through the row is [error] with "Queue is full". *)
Theorem queue_full_update_failure_dropped (q : QueueService) :
  queue_closed q = false →
  (bufferSize q ≤ Z.of_nat (length (queue q)))%Z →
  (∀ url,
     ValidateURL crawler url = None →
     db_Exec W (n_db (made q)) = None →
     let id := uuid_New W (n_uuid (made q)) in
     ∃ q' result,
       EnqueueURL W crawler url q
         = (Error "queue is full, please try again later", q')
       ∧ trace q' = (trace q ++
           [ SaveCalled result;
             ActiveInsert id (length (heap q));
             ActiveDelete id;
             UpdateCalled id CrawlStatusError (Some "Queue is full") ])%list
       ∧ n_db (made q') = S (S (n_db (made q)))
       ∧ GetActiveTask id q' = None
       ∧ (∀ e, db_Exec W (S (n_db (made q))) = Some e →
           ∃ row, storage q' !! id = Some row
                  ∧ Status row = CrawlStatusQueued
                  ∧ ErrorMessage row = None)
       ∧ (db_Exec W (S (n_db (made q))) = None →
           ∃ row, storage q' !! id = Some row
                  ∧ Status row = CrawlStatusError
                  ∧ ErrorMessage row = Some "Queue is full"))
  ∧ (∀ id row0,
     storage q !! id = Some row0 →
     db_Exec W (n_db (made q)) = None →
     db_Exec W (S (n_db (made q))) = None →
     ∃ q',
       RequeueTask W id q
         = (Error "queue is full, please try again later", q')
       ∧ trace q' = (trace q ++
           [ GetCalled id;
             UpdateCalled id CrawlStatusQueued None;
             ActiveInsert id (length (heap q));
             ActiveDelete id;
             UpdateCalled id CrawlStatusError (Some "Queue is full") ])%list
       ∧ n_db (made q') = S (S (S (n_db (made q))))
       ∧ GetActiveTask id q' = None
       ∧ (∀ e, db_Exec W (S (S (n_db (made q)))) = Some e →
           ∃ row, storage q' !! id = Some row
                  ∧ Status row = CrawlStatusQueued
                  ∧ ErrorMessage row = None)
       ∧ (db_Exec W (S (S (n_db (made q)))) = None →
           ∃ row, storage q' !! id = Some row
                  ∧ Status row = CrawlStatusError
                  ∧ ErrorMessage row = Some "Queue is full")).
Proof.
  intros Hopen Hfull. split.
  - intros url Hv Hsave id. subst id. unfold EnqueueURL. rewrite Hv.
    unfold_ops. cbn. rewrite Hsave. cbn. rewrite Hopen.
    rewrite (send_has_no_room q Hfull). cbn.
    destruct (db_Exec W (S (n_db (made q)))) as [e'|] eqn:Hupd; cbn;
      (eexists _, _; split; [reflexivity|]); cbn.
    + split_and!; [by rewrite <- !(assoc_L (++)) | done | apply lookup_delete_eq
                  | | done].
      intros e _. rewrite lookup_insert_eq. eexists. split; [reflexivity|].
      by destruct (storage q !! _).
    + split_and!; [by rewrite <- !(assoc_L (++)) | done | apply lookup_delete_eq
                  | done | ].
      intros _. rewrite lookup_alter_eq, lookup_insert_eq. cbn. eauto.
  - intros id row0 Hrow Hget Hupd. unfold_ops. cbn. rewrite Hget. cbn.
    rewrite Hrow. cbn. rewrite Hupd. cbn. rewrite Hopen.
    rewrite (send_has_no_room q Hfull). cbn.
    destruct (db_Exec W (S (S (n_db (made q))))) as [e'|] eqn:Hupd2; cbn;
      (eexists; split; [reflexivity|]); cbn.
    + split_and!; [by rewrite <- !(assoc_L (++)) | done | apply lookup_delete_eq
                  | | done].
      intros e _. rewrite lookup_alter_eq, Hrow. cbn. eauto.
    + split_and!; [by rewrite <- !(assoc_L (++)) | done | apply lookup_delete_eq
                  | done | ].
      intros _. rewrite !lookup_alter_eq, Hrow. cbn. eauto.
Qed.

(** C8.  [Start] on a running pool returns it unchanged (no goroutine is
    added to the wait group); [Stop] on a pool that is not running returns at
    once and leaves it unchanged (the context is not cancelled and the channel
    not closed again).  Hence a second [Start] after a [Start], and a second
    [Stop] after a [Stop], do nothing. *)
Theorem Start_Stop_idempotent (q : QueueService) :
  (running q = true → Start q = (tt, q))
  ∧ (running q = false → Stop q = (StopNoop, q))
  ∧ Start (snd (Start q)) = (tt, snd (Start q))
  ∧ Stop (snd (Stop q)) = (StopNoop, snd (Stop q)).
Proof.
  split_and!.
  - intros Hr. unfold Start. by rewrite Hr.
  - intros Hr. unfold Stop. by rewrite Hr.
  - unfold Start. destruct (running q) eqn:Hr; cbn; [by rewrite Hr | done].
  - unfold Stop. destruct (running q) eqn:Hr; cbn; [|by rewrite Hr].
    destruct (queue_closed q); done.
Qed.

(** *** The worker loops *)

(** [processTask], short of its last lines, leaves the channel, the wait
    group and the context alone and only adds to the trace. *)
Lemma processTask_work_frame (task : ptr) (q : QueueService) :
  let q' := snd (processTask_work W crawler task q) in
  queue q' = queue q
  ∧ queue_closed q' = queue_closed q
  ∧ wg q' = wg q
  ∧ ctx_done q' = ctx_done q
  ∧ ∃ evs, trace q' = (trace q ++ evs)%list.
Proof.
  cbn. split_and!; try (run_ops; reflexivity).
  run_ops; rewrite <- !(assoc_L (++)); eexists; reflexivity.
Qed.

(** What one action does to the channel and the trace: tasks leave the
    buffer from its head, each with a [Received] event, and nothing enters
    it; a worker that takes the queue-closed exit leaves an empty buffer. *)
Lemma perform_effect (a : action) (p p' : pool) :
  perform W crawler a p = Some p' →
  queue_closed (svc p') = queue_closed (svc p)
  ∧ (∃ taken evs,
       queue (svc p) = (taken ++ queue (svc p'))%list
       ∧ trace (svc p') = (trace (svc p) ++ evs)%list
       ∧ Forall (λ task, Received task ∈ evs) taken)
  ∧ ∀ w,
      wg (svc p') !! w = Some (Exited QueueClosed) →
      wg (svc p) !! w ≠ Some (Exited QueueClosed) →
      queue (svc p') = [].
Proof.
  destruct p as [mu q]. unfold perform. cbn.
  destruct a as [id c | id | ].
  - destruct (wg q !! id) as [[| |]|] eqn:Hg; try done.
    destruct c; cbn.
    + unfold worker, queue_receive.
      destruct (queue q) as [|task rest] eqn:Hq.
      * destruct (queue_closed q) eqn:Hc; [|done].
        intros [= <-]. cbn. rewrite Hq. split_and!; [done | | done].
        exists [], []. split_and!; [done | by rewrite app_nil_r | by constructor].
      * pose proof (processTask_work_frame task
                      (log (Received task) (set_queue rest q))) as Hframe.
        unfold bind, set_goroutine, modify.
        cbn -[processTask_work] in *.
        destruct (processTask_work W crawler task _) as [u q1].
        cbn in Hframe. destruct Hframe as (Hqueue & Hclosed & Hwg & _ & evs & Htrace).
        intros [= <-]. cbn.
        rewrite Hqueue, Hclosed, Hwg, Htrace. split_and!; [done | |].
        -- exists [task], (Received task :: evs). split_and!.
           ++ done.
           ++ by rewrite <- (assoc_L (++)).
           ++ constructor; [|done]. apply elem_of_cons. by left.
        -- intros w Hw Hold. rewrite list_lookup_insert in Hw.
           case_decide; [done | by destruct Hold].
    + unfold worker. destruct (ctx_done q); [|done].
      intros [= <-]. cbn. split_and!; [done | |].
      * exists [], []. split_and!; [done | by rewrite app_nil_r | by constructor].
      * intros w Hw Hold. rewrite list_lookup_insert in Hw.
        case_decide; [done | by destruct Hold].
  - destruct (wg q !! id) as [[|task|]|] eqn:Hg; try done.
    destruct mu; [done|]. intros [= <-]. cbn. split_and!; [done | |].
    + exists [], [ActiveDelete (task_ID (heap q !!! task))].
      split_and!; [done | done | by constructor].
    + intros w Hw Hold. rewrite list_lookup_insert in Hw.
      case_decide; [done | by destruct Hold].
  - destruct (mu && forallb is_exited (wg q)); [|done].
    intros [= <-]. cbn. split_and!; [done | | done].
    exists [], []. split_and!; [done | by rewrite app_nil_r | by constructor].
Qed.

Lemma run_effect (schedule : list action) (p p' : pool) :
  run W crawler schedule p = Some p' →
  queue_closed (svc p') = queue_closed (svc p)
  ∧ ∃ taken evs,
      queue (svc p) = (taken ++ queue (svc p'))%list
      ∧ trace (svc p') = (trace (svc p) ++ evs)%list
      ∧ Forall (λ task, Received task ∈ evs) taken.
Proof.
  revert p. induction schedule as [|a rest IH]; intros p; cbn.
  - intros [= <-]. split; [done|]. exists [], [].
    split_and!; [done | by rewrite app_nil_r | by constructor].
  - destruct (perform W crawler a p) as [p1|] eqn:Ha; [|done]. cbn.
    intros Hrun.
    apply perform_effect in Ha as (Hc1 & (taken1 & evs1 & Hq1 & Ht1 & Hf1) & _).
    apply IH in Hrun as (Hc2 & taken2 & evs2 & Hq2 & Ht2 & Hf2).
    split; [congruence|].
    exists (taken1 ++ taken2)%list, (evs1 ++ evs2)%list. split_and!.
    + by rewrite Hq1, Hq2, (assoc_L (++)).
    + by rewrite Ht2, Ht1, (assoc_L (++)).
    + apply Forall_app. split.
      * eapply Forall_impl; [exact Hf1|]. intros t Ht. apply elem_of_app. by left.
      * eapply Forall_impl; [exact Hf2|]. intros t Ht. apply elem_of_app. by right.
Qed.

Lemma run_closed_exit_empty (schedule : list action) (p p' : pool) (w : nat) :
  run W crawler schedule p = Some p' →
  wg (svc p) !! w ≠ Some (Exited QueueClosed) →
  wg (svc p') !! w = Some (Exited QueueClosed) →
  queue (svc p') = [].
Proof.
  revert p. induction schedule as [|a rest IH]; intros p; cbn.
  - intros [= <-] Hold Hnew. done.
  - destruct (perform W crawler a p) as [p1|] eqn:Ha; [|done]. cbn.
    intros Hrun Hold Hnew.
    destruct (decide (wg (svc p1) !! w = Some (Exited QueueClosed)))
      as [Hmid|Hmid].
    + apply perform_effect in Ha as (_ & _ & Hexit).
      specialize (Hexit w Hmid Hold).
      apply run_effect in Hrun as (_ & taken & evs & Hq & _ & _).
      rewrite Hexit in Hq. symmetry in Hq. by apply app_nil in Hq as [_ ?].
    + by apply (IH p1).
Qed.

(** C9 (as amended).  In any run of the worker loops, a worker that leaves
    through the queue-closed branch of its [select] does
    so on an empty buffer, after every task the buffer held has been received
    by some worker.  (Nothing of the kind holds for the cancellation branch,
    which [Stop] makes ready before it closes the channel.) *)
Theorem closed_exit_after_drain (schedule : list action) (p p' : pool) (w : nat) :
  run W crawler schedule p = Some p' →
  wg (svc p) !! w ≠ Some (Exited QueueClosed) →
  wg (svc p') !! w = Some (Exited QueueClosed) →
  queue (svc p') = []
  ∧ ∃ evs, trace (svc p') = (trace (svc p) ++ evs)%list
           ∧ ∀ task, task ∈ queue (svc p) → Received task ∈ evs.
Proof.
  intros Hrun Hold Hnew.
  pose proof (run_closed_exit_empty _ _ _ _ Hrun Hold Hnew) as Hempty.
  split; [done|].
  apply run_effect in Hrun as (_ & taken & evs & Hq & Ht & Hf).
  exists evs. split; [done|]. intros task Htask.
  rewrite Hq, Hempty, (right_id_L [] (++)) in Htask.
  by apply (proj1 (Forall_forall _ _) Hf).
Qed.





End QueueProperties.

(** ** The properties on concrete pools *)

(** C1, the claim as worded fails: the buffer of [one_queued] is full; the
    second target is valid and its row is saved, then the database goes away
    and the status update fails.  The call returns the queue-full error and
    the row stays [queued]. *)
Lemma EnqueueURL_full_row_stays_queued :
  ValidateURL engine_ok "http://b.example" = None
  ∧ queue_closed one_queued = false
  ∧ (bufferSize one_queued ≤ Z.of_nat (length (queue one_queued)))%Z
  ∧ ∃ q',
      EnqueueURL (world (db_down_after 2)) engine_ok "http://b.example" one_queued
        = (Error "queue is full, please try again later", q')
      ∧ GetActiveTask "task-1" q' = None
      ∧ Status <$> storage q' !! "task-1" = Some CrawlStatusQueued
      ∧ ErrorMessage <$> storage q' !! "task-1" = Some None.
Proof.
  split_and!; [reflexivity | reflexivity | by vm_compute |].
  eexists. split; [vm_compute; reflexivity|].
  split_and!; vm_compute; reflexivity.
Qed.

Lemma EnqueueURL_queue_full_witness :
  ∃ q',
    EnqueueURL (world db_up) engine_ok "http://b.example" one_queued
      = (Error "queue is full, please try again later", q')
    ∧ GetActiveTask "task-1" q' = None
    ∧ queue q' = queue one_queued
    ∧ ∃ row, storage q' !! "task-1" = Some row
             ∧ Status row = CrawlStatusError
             ∧ ErrorMessage row = Some "Queue is full".
Proof.
  destruct (EnqueueURL_queue_full (world db_up) engine_ok "http://b.example"
              one_queued eq_refl eq_refl eq_refl)
    as (q' & Hcall & Hactive & Hqueue & _ & Hrow); [by vm_compute|].
  exists q'. split_and!; [exact Hcall | exact Hactive | exact Hqueue |].
  by apply Hrow.
Defined.

Lemma EnqueueURL_invalid_no_effect_witness :
  EnqueueURL (world db_up) engine_ok "ftp://files.example/a" one_queued
  = (Error "invalid URL: URL must start with http:// or https://", one_queued).
Proof.
  exact (EnqueueURL_invalid_no_effect (world db_up) engine_ok
           "ftp://files.example/a" "URL must start with http:// or https://"
           one_queued eq_refl).
Defined.

(** C3, the claim as worded fails twice over.  On [small_pool] (valid
    target, empty buffer, open channel) with the database away the call
    returns an error and the id is not in flight.  On a pool that [Stop] has
    shut down (its buffer is empty) the send panics. *)
Lemma EnqueueURL_valid_target_refused :
  (ValidateURL engine_ok "http://a.example" = None
   ∧ queue_closed small_pool = false
   ∧ (Z.of_nat (length (queue small_pool)) < bufferSize small_pool)%Z
   ∧ ∃ q',
       EnqueueURL (world (db_down_after 0)) engine_ok "http://a.example" small_pool
         = (Error "failed to save crawl result: failed to save crawl result: connection refused", q')
       ∧ GetActiveTask "task-0" q' = None)
  ∧ ∃ p q',
      run (world db_up) engine_ok [Select 0 case_ctx_Done; StopReturns]
        (after_Stop (snd (Start small_pool))) = Some p
      ∧ mu_held_by_Stop p = false
      ∧ (Z.of_nat (length (queue (svc p))) < bufferSize (svc p))%Z
      ∧ EnqueueURL (world db_up) engine_ok "http://a.example" (svc p)
        = (Panic "send on closed channel", q').
Proof.
  split.
  - split_and!; [reflexivity | reflexivity | by vm_compute |].
    eexists. split; vm_compute; reflexivity.
  - eexists _, _. split_and!; [vm_compute; reflexivity | reflexivity
                              | by vm_compute | vm_compute; reflexivity].
Qed.

Lemma EnqueueURL_accepts_witness :
  ∃ result q' task t,
    EnqueueURL (world db_up) engine_ok "http://a.example" small_pool
      = (Return result, q')
    ∧ ID result = "task-0"
    ∧ Status result = CrawlStatusQueued
    ∧ GetActiveTask (ID result) q' = Some task
    ∧ heap q' !! task = Some t
    ∧ task_Status t = CrawlStatusQueued
    ∧ task_ID t = ID result
    ∧ task_URL t = "http://a.example"
    ∧ queue q' = (queue small_pool ++ [task])%list.
Proof.
  apply (EnqueueURL_accepts (world db_up) engine_ok "http://a.example" small_pool);
    vm_compute; reflexivity.
Defined.

Lemma ValidateURL_accepts_iff_witness :
  FirecrawlService.ValidateURL To_LowerCase_sample "JavaScript:alert(1)" ≠ None
  ∧ FirecrawlService.ValidateURL To_LowerCase_sample "https://example.com/a?b=1"
    = None
  ∧ FirecrawlService.ValidateURL To_LowerCase_sample "https://example.com/fİle:x"
    ≠ None.
Proof.
  split_and!.
  - exact (proj2 (ValidateURL_accepts_iff To_LowerCase_sample
                    "JavaScript:alert(1)") eq_refl).
  - apply (proj1 (ValidateURL_accepts_iff To_LowerCase_sample
                    "https://example.com/a?b=1")).
    split_and!; [done | right; by eexists | ].
    intros pattern Hp. rewrite <- Contains_app.
    by repeat (destruct Hp as [<-|Hp]; [by vm_compute|]).
  - intros Haccepted.
    apply (proj1 (ValidateURL_accepts_iff To_LowerCase_sample
                    "https://example.com/fİle:x")) in Haccepted
      as (_ & _ & Hpattern).
    apply (Hpattern "file:"); [right; right; by left|].
    exists "https://example.com/", "x". vm_compute; reflexivity.
Defined.

(** C5, the claim as worded fails: the engine fails with "boom", the
    database goes away after the update to [running], and the row of task [0]
    ends [running] with no error text. *)
Lemma processTask_failure_row_stays_running :
  heap one_queued !! 0%nat
    = Some {| task_ID := "task-0"; task_URL := "http://a.example";
              task_CreatedAt := 1002; task_Status := CrawlStatusQueued |}
  ∧ AnalyzeURL engine_boom 0 "http://a.example" = Failed None "boom"
  ∧ Status <$> storage (snd (processTask (world (db_down_after 2)) engine_boom
                               0%nat one_queued)) !! "task-0"
    = Some CrawlStatusRunning
  ∧ ErrorMessage <$> storage (snd (processTask (world (db_down_after 2)) engine_boom
                                     0%nat one_queued)) !! "task-0"
    = Some None.
Proof. split_and!; vm_compute; reflexivity. Qed.

Lemma processTask_engine_failure_witness :
  ∃ row',
    storage (snd (processTask (world db_up) engine_boom 0%nat one_queued)) !! "task-0"
      = Some row'
    ∧ Status row' = CrawlStatusError
    ∧ ErrorMessage row' = Some "boom".
Proof.
  pose proof (processTask_engine_failure (world db_up) engine_boom 0%nat
                {| task_ID := "task-0"; task_URL := "http://a.example";
                   task_CreatedAt := 1002; task_Status := CrawlStatusQueued |}
                None "boom" one_queued eq_refl eq_refl) as (_ & _ & _ & Hrow).
  eapply Hrow; vm_compute; reflexivity.
Defined.



Lemma RequeueTask_not_found_witness :
  ∃ q',
    RequeueTask (world db_up) "no-such-id" one_queued
      = (Error "failed to get crawl result: crawl result not found", q')
    ∧ activeTasks q' = activeTasks one_queued
    ∧ queue q' = queue one_queued
    ∧ storage q' = storage one_queued
    ∧ trace q' = (trace one_queued ++ [GetCalled "no-such-id"])%list.
Proof.
  destruct (RequeueTask_not_found (world db_up) "no-such-id" one_queued)
    as (msg & q' & Hcall & Hactive & Hqueue & Hstorage & _ & Htrace & Hmsg & _);
    [by vm_compute|].
  exists q'. rewrite <- (Hmsg eq_refl). by split_and!.
Defined.

Lemma Start_Stop_idempotent_witness :
  Start (snd (Start small_pool)) = (tt, snd (Start small_pool))
  ∧ Stop small_pool = (StopNoop, small_pool).
Proof.
  split.
  - exact (proj1 (Start_Stop_idempotent (snd (Start small_pool))) eq_refl).
  - exact (proj1 (proj2 (Start_Stop_idempotent small_pool)) eq_refl).
Defined.

(** C9, the claim as worded fails: task [0] is in the buffer when [Stop]
    closes the channel; the only worker takes the cancellation branch; [Stop]
    returns.  The task is still in the buffer and in the in-flight map, no
    worker has received it, the engine was not called, and its row stays
    [queued]. *)
Lemma Stop_leaves_buffered_task_unprocessed :
  queue (svc (after_Stop (snd (Start one_queued)))) = [0%nat]
  ∧ queue_closed (svc (after_Stop (snd (Start one_queued)))) = true
  ∧ ∃ p',
      run (world db_up) engine_ok [Select 0 case_ctx_Done; StopReturns]
        (after_Stop (snd (Start one_queued))) = Some p'
      ∧ mu_held_by_Stop p' = false
      ∧ wg (svc p') = [Exited ContextCancelled]
      ∧ queue (svc p') = [0%nat]
      ∧ trace (svc p') = trace one_queued
      ∧ GetActiveTask "task-0" (svc p') = Some 0%nat
      ∧ Status <$> storage (svc p') !! "task-0" = Some CrawlStatusQueued.
Proof.
  split_and!; [reflexivity | reflexivity |].
  eexists. split; [vm_compute; reflexivity|].
  split_and!; vm_compute; reflexivity.
Qed.

Lemma closed_exit_after_drain_witness :
  ∃ p',
    run (world db_up) engine_ok [Select 0 case_queue; Select 1 case_queue]
      (after_Stop (snd (Start pair_one_queued))) = Some p'
    ∧ wg (svc p') !! 1%nat = Some (Exited QueueClosed)
    ∧ queue (svc p') = []
    ∧ ∃ evs,
        trace (svc p') = (trace pair_one_queued ++ evs)%list
        ∧ ∀ task, task ∈ [0%nat] → Received task ∈ evs.
Proof.
  eexists. split; [vm_compute; reflexivity|].
  split; [reflexivity|].
  apply (closed_exit_after_drain (world db_up) engine_ok
           [Select 0 case_queue; Select 1 case_queue]
           (after_Stop (snd (Start pair_one_queued))) _ 1%nat);
    vm_compute; (reflexivity || discriminate).
Defined.

Lemma queue_full_update_failure_dropped_witness :
  (∃ q',
     EnqueueURL (world (db_down_after 2)) engine_ok "http://b.example" one_queued
       = (Error "queue is full, please try again later", q')
     ∧ n_db (made q') = S (S (n_db (made one_queued)))
     ∧ ∃ row, storage q' !! "task-1" = Some row
              ∧ Status row = CrawlStatusQueued ∧ ErrorMessage row = None)
  ∧ ∃ q',
      RequeueTask (world (db_down_after 3)) "task-0" one_queued
        = (Error "queue is full, please try again later", q')
      ∧ trace q' = (trace one_queued ++
          [ GetCalled "task-0";
            UpdateCalled "task-0" CrawlStatusQueued None;
            ActiveInsert "task-0" (length (heap one_queued));
            ActiveDelete "task-0";
            UpdateCalled "task-0" CrawlStatusError (Some "Queue is full") ])%list
      ∧ ∃ row, storage q' !! "task-0" = Some row
               ∧ Status row = CrawlStatusQueued ∧ ErrorMessage row = None.
Proof.
  split.
  - destruct (queue_full_update_failure_dropped (world (db_down_after 2))
                engine_ok one_queued eq_refl) as [Henq _]; [by vm_compute|].
    destruct (Henq "http://b.example" eq_refl eq_refl)
      as (q' & result & Hcall & _ & Hsent & _ & Hrow & _).
    exists q'. split_and!; [exact Hcall | exact Hsent |].
    by apply (Hrow "connection refused").
  - destruct (queue_full_update_failure_dropped (world (db_down_after 3))
                engine_ok one_queued eq_refl) as [_ Hreq]; [by vm_compute|].
    destruct (storage one_queued !! "task-0") as [row0|] eqn:Hrow0;
      [|by vm_compute in Hrow0].
    destruct (Hreq "task-0" row0 Hrow0 eq_refl eq_refl)
      as (q' & Hcall & Htrace & _ & _ & Hrow & _).
    exists q'. split_and!; [exact Hcall | exact Htrace |].
    by apply (Hrow "connection refused").
Defined.

(* ===================================================================== *)
(** * Part III: the rest of the storage, the queue and their callers *)
(* ===================================================================== *)

(** ** Storage: single rows *)

(** X1.  [SaveCrawlResult] that runs over an existing row leaves the id,
    the url and the creation time the row had, whatever the result carries
    in these fields (the three columns are not in the [ON DUPLICATE KEY
    UPDATE] list), and gives the row the status of the result.  Rows under
    other ids are not touched; no row is removed and the only id that can be
    new in the table is that of the result. *)
Theorem SaveCrawlResult_keeps_identity (result : CrawlResult)
    (db db' : gmap string CrawlResult) :
  database.SaveCrawlResult None result db = (db', None) →
  (∀ row, db !! ID result = Some row →
     ∃ row', db' !! ID result = Some row'
             ∧ ID row' = ID row ∧ URL row' = URL row
             ∧ CreatedAt row' = CreatedAt row
             ∧ Status row' = Status result)
  ∧ (∀ id, id ≠ ID result →
       db' !! id = db !! id
       ∧ database.GetCrawlResult None id db' = database.GetCrawlResult None id db)
  ∧ dom db' = dom db ∪ {[ID result]}.
Proof.
  unfold database.SaveCrawlResult, database.GetCrawlResult. intros [= <-].
  split_and!.
  - intros row Hrow. rewrite lookup_insert_eq, Hrow. cbn.
    eexists. by split_and!.
  - intros id Hne. by rewrite lookup_insert_ne.
  - rewrite dom_insert_L. apply set_eq. intros id.
    rewrite !elem_of_union, elem_of_singleton. tauto.
Qed.


(** ** Storage: bulk operations *)

Lemma listed_lookup (ids : list string) (db : gmap string CrawlResult)
    (id : string) (row : CrawlResult) :
  CrawlStorage.listed ids db !! id = Some row ↔ db !! id = Some row ∧ id ∈ ids.
Proof. unfold CrawlStorage.listed. by rewrite map_lookup_filter_Some. Qed.

Lemma listed_empty (ids : list string) (db : gmap string CrawlResult) :
  size (CrawlStorage.listed ids db) = 0%nat ↔ ∀ id, id ∈ ids → db !! id = None.
Proof.
  rewrite map_size_empty_iff, map_empty. split.
  - intros H id Hid. destruct (db !! id) as [row|] eqn:Hrow; [|done].
    specialize (H id). apply eq_None_not_Some in H. destruct H.
    exists row. by apply listed_lookup.
  - intros H id. apply eq_None_not_Some. intros [row Hrow].
    apply listed_lookup in Hrow as [Hrow Hid]. by rewrite (H id Hid) in Hrow.
Qed.

Lemma not_listed_lookup (ids : list string) (db : gmap string CrawlResult)
    (id : string) :
  filter (λ kv : string * CrawlResult, kv.1 ∉ ids) db !! id
  = if decide (id ∈ ids) then None else db !! id.
Proof.
  destruct (decide (id ∈ ids)) as [Hin|Hout].
  - apply map_lookup_filter_None. right. intros row _ Hnot. by apply Hnot.
  - destruct (db !! id) as [row|] eqn:Hrow.
    + by apply map_lookup_filter_Some.
    + apply map_lookup_filter_None. by left.
Qed.

Lemma DeleteCrawlResults_listed (exec affected : option string)
    (ids : list string) (db : gmap string CrawlResult) :
  ids ≠ [] →
  CrawlStorage.DeleteCrawlResults exec affected ids db
  = match exec with
    | Some err => (db, Some ("failed to delete crawl results: " +:+ err))
    | None =>
        let db' := filter (λ kv : string * CrawlResult, kv.1 ∉ ids) db in
        match affected with
        | Some err => (db', Some ("failed to get affected rows: " +:+ err))
        | None =>
            if decide (size (CrawlStorage.listed ids db) = 0)%nat
            then (db', Some "no crawl results were deleted")
            else (db', None)
        end
    end.
Proof. by destruct ids. Qed.

(** X3.  When [DeleteCrawlResults] reports success, no listed id has a row
    any more, every other row is as before, and, unless the list was empty,
    at least one listed id did have a row. *)
Theorem DeleteCrawlResults_success (exec affected : option string)
    (ids : list string) (db db' : gmap string CrawlResult) :
  CrawlStorage.DeleteCrawlResults exec affected ids db = (db', None) →
  (∀ id, id ∈ ids → db' !! id = None)
  ∧ (∀ id, id ∉ ids → db' !! id = db !! id)
  ∧ (ids ≠ [] → ∃ id, id ∈ ids ∧ is_Some (db !! id)).
Proof.
  destruct (decide (ids = [])) as [->|Hids].
  - intros [= <-]. split_and!; [by intros id ?%elem_of_nil | done | done].
  - rewrite DeleteCrawlResults_listed by done.
    destruct exec; [done|]. destruct affected; [done|]. cbn.
    destruct (decide _) as [Hzero|Hsome]; [done|]. intros [= <-].
    split_and!.
    + intros id Hid. rewrite not_listed_lookup. by rewrite decide_True.
    + intros id Hid. rewrite not_listed_lookup. by rewrite decide_False.
    + intros _. apply map_size_ne_0_lookup in Hsome as [id [row Hrow]].
      apply listed_lookup in Hrow as [Hrow Hid]. eauto.
Qed.

(** X4.  [DeleteCrawlResults] answers "no crawl results were deleted" exactly
    when it was given at least one id, the statement ran, and none of the ids
    has a row; the table is then as before.  With an empty list it reports
    success and changes nothing. *)
Theorem DeleteCrawlResults_nothing_to_delete (exec affected : option string)
    (ids : list string) (db : gmap string CrawlResult) :
  ((CrawlStorage.DeleteCrawlResults exec affected ids db).2
     = Some "no crawl results were deleted"
   ↔ ids ≠ [] ∧ exec = None ∧ affected = None
     ∧ ∀ id, id ∈ ids → db !! id = None)
  ∧ ((CrawlStorage.DeleteCrawlResults exec affected ids db).2
       = Some "no crawl results were deleted" →
     (CrawlStorage.DeleteCrawlResults exec affected ids db).1 = db)
  ∧ CrawlStorage.DeleteCrawlResults exec affected [] db = (db, None).
Proof.
  split_and!; [| |done].
  - destruct (decide (ids = [])) as [->|Hids].
    { cbn. split; [done | by intros [? _]]. }
    rewrite DeleteCrawlResults_listed by done.
    destruct exec as [e|]; [cbn; split; [intros [=] | by intros (_ & ? & _)]|].
    destruct affected as [e|];
      [cbn; split; [intros [=] | by intros (_ & _ & ? & _)]|].
    cbn. destruct (decide _) as [Hzero|Hsome]; cbn.
    + split; [|done]. intros _. split_and!; try done.
      by apply listed_empty.
    + split; [done|]. intros (_ & _ & _ & Hnone).
      destruct Hsome. by apply listed_empty.
  - destruct (decide (ids = [])) as [->|Hids]; [done|].
    rewrite DeleteCrawlResults_listed by done.
    destruct exec; [done|]. destruct affected; [cbn; intros [=]|]. cbn.
    destruct (decide _) as [Hzero|Hsome]; [|done]. cbn. intros _.
    apply map_eq. intros id.
    rewrite not_listed_lookup. destruct (decide (id ∈ ids)); [|done].
    symmetry. by apply (proj1 (listed_empty ids db)).
Qed.

Lemma UpdateCrawlResultsBulkStatus_listed (exec affected : option string)
    (clientFoundRows : bool) (now : Z) (ids : list string) (status : CrawlStatus)
    (db : gmap string CrawlResult) :
  ids ≠ [] →
  CrawlStorage.UpdateCrawlResultsBulkStatus exec affected clientFoundRows now
    ids status db
  = match exec with
    | Some err => (db, Some ("failed to update crawl results status: " +:+ err))
    | None =>
        let set := database.set_status status None now in
        let db' := map_imap (λ id row,
                     Some (if decide (id ∈ ids) then set row else row)) db in
        let rowsAffected :=
          if clientFoundRows then size (CrawlStorage.listed ids db)
          else size (filter (λ kv : string * CrawlResult, set kv.2 ≠ kv.2)
                       (CrawlStorage.listed ids db)) in
        match affected with
        | Some err => (db', Some ("failed to get affected rows: " +:+ err))
        | None =>
            if decide (rowsAffected = 0)%nat
            then (db', Some "no crawl results were updated")
            else (db', None)
        end
    end.
Proof. by destruct ids. Qed.

(** X5.  When [UpdateCrawlResultsBulkStatus] reports success, every listed
    row has the new status, no error text and the new update time, its other
    columns being as before; rows that are not listed are as before; no row
    is added or removed; and, unless the list was empty, some listed id has a
    row.  This holds for either way of counting affected rows. *)
Theorem UpdateCrawlResultsBulkStatus_success (exec affected : option string)
    (clientFoundRows : bool) (now : Z) (ids : list string) (status : CrawlStatus)
    (db db' : gmap string CrawlResult) :
  CrawlStorage.UpdateCrawlResultsBulkStatus exec affected clientFoundRows now
    ids status db = (db', None) →
  (∀ id row, id ∈ ids → db !! id = Some row →
     db' !! id = Some (database.set_status status None now row))
  ∧ (∀ id, id ∉ ids → db' !! id = db !! id)
  ∧ dom db' = dom db
  ∧ (ids ≠ [] → ∃ id, id ∈ ids ∧ is_Some (db !! id)).
Proof.
  destruct (decide (ids = [])) as [->|Hids].
  - intros [= <-]. split_and!; [by intros id row ?%elem_of_nil | done..].
  - rewrite UpdateCrawlResultsBulkStatus_listed by done.
    destruct exec; [done|]. destruct affected; [done|]. cbn.
    destruct (decide _) as [Hzero|Hsome]; [done|]. intros [= <-].
    split_and!.
    + intros id row Hid Hrow. rewrite map_lookup_imap, Hrow. cbn.
      by rewrite decide_True.
    + intros id Hid. rewrite map_lookup_imap.
      destruct (db !! id); cbn; [by rewrite decide_False | done].
    + apply set_eq. intros id. rewrite !elem_of_dom, map_lookup_imap.
      destruct (db !! id); cbn; [|done]. split; eauto.
    + intros _. destruct clientFoundRows.
      * apply map_size_ne_0_lookup in Hsome as [id [row Hrow]].
        apply listed_lookup in Hrow as [Hrow Hid]. eauto.
      * apply map_size_ne_0_lookup in Hsome as [id [row Hrow]].
        apply map_lookup_filter_Some in Hrow as [Hrow _].
        apply listed_lookup in Hrow as [Hrow Hid]. eauto.
Qed.

(** X6.  When none of the listed ids has a row (and the statement ran),
    [UpdateCrawlResultsBulkStatus] answers "no crawl results were updated"
    and leaves the table as it was, whichever way affected rows are counted.
    When the connection counts changed rows, it gives the same answer for
    rows that already have the status, no error text and the update time. *)
Theorem UpdateCrawlResultsBulkStatus_nothing (clientFoundRows : bool) (now : Z)
    (ids : list string) (status : CrawlStatus) (db : gmap string CrawlResult) :
  ids ≠ [] →
  ((∀ id, id ∈ ids → db !! id = None) →
     CrawlStorage.UpdateCrawlResultsBulkStatus None None clientFoundRows now
       ids status db = (db, Some "no crawl results were updated"))
  ∧ ((∀ id row, id ∈ ids → db !! id = Some row →
        Status row = status ∧ ErrorMessage row = None ∧ UpdatedAt row = now) →
     CrawlStorage.UpdateCrawlResultsBulkStatus None None false now
       ids status db = (db, Some "no crawl results were updated")).
Proof.
  intros Hids. rewrite !UpdateCrawlResultsBulkStatus_listed by done. cbn.
  split.
  - intros Hnone.
    assert (Hlisted : CrawlStorage.listed ids db = ∅).
    { apply map_size_empty_iff. by apply listed_empty. }
    rewrite Hlisted, map_filter_empty, map_size_empty.
    assert (Hsame : map_imap (λ id row,
              Some (if decide (id ∈ ids)
                    then database.set_status status None now row else row)) db
            = db).
    { apply map_eq. intros id. rewrite map_lookup_imap.
      destruct (db !! id) as [row|] eqn:Hrow; cbn; [|done].
      destruct (decide (id ∈ ids)) as [Hid|]; [|done].
      by rewrite (Hnone id Hid) in Hrow. }
    rewrite Hsame. by destruct clientFoundRows.
  - intros Hcur.
    assert (Hfix : ∀ id row, id ∈ ids → db !! id = Some row →
              database.set_status status None now row = row).
    { intros id row Hid Hrow. destruct (Hcur id row Hid Hrow) as (? & ? & ?).
      destruct row; cbn in *. by subst. }
    assert (Hchanged : filter
              (λ kv : string * CrawlResult,
                 database.set_status status None now kv.2 ≠ kv.2)
              (CrawlStorage.listed ids db) = ∅).
    { apply map_empty. intros id. apply map_lookup_filter_None.
      destruct (CrawlStorage.listed ids db !! id) as [row|] eqn:Hrow; [|by left].
      right. intros row' [= <-] Hne. cbn in Hne.
      apply listed_lookup in Hrow as [Hrow Hid]. by apply Hne, (Hfix id). }
    rewrite Hchanged, map_size_empty.
    assert (Hsame : map_imap (λ id row,
              Some (if decide (id ∈ ids)
                    then database.set_status status None now row else row)) db
            = db).
    { apply map_eq. intros id. rewrite map_lookup_imap.
      destruct (db !! id) as [row|] eqn:Hrow; cbn; [|done].
      destruct (decide (id ∈ ids)) as [Hid|]; [|done].
      by rewrite (Hfix id row Hid Hrow). }
    by rewrite Hsame.
Qed.

Lemma filter_size_split (P : string * CrawlResult → Prop)
    `{!∀ kv, Decision (P kv)} (db : gmap string CrawlResult) :
  size db = (size (filter P db) + size (filter (λ kv, ¬ P kv) db))%nat.
Proof.
  rewrite <- map_size_disj_union by apply map_disjoint_filter_complement.
  by rewrite map_filter_union_complement.
Qed.


Lemma count_status_total (db : gmap string CrawlResult) :
  Z.of_nat (size db)
  = (CrawlStorage.count_status CrawlStatusQueued db
     + CrawlStorage.count_status CrawlStatusRunning db
     + CrawlStorage.count_status CrawlStatusCompleted db
     + CrawlStorage.count_status CrawlStatusError db)%Z.
Proof.
  unfold CrawlStorage.count_status.
  rewrite (filter_size_split (λ kv, Status kv.2 = CrawlStatusQueued) db).
  set (nq := filter (λ kv : string * CrawlResult,
                       ¬ Status kv.2 = CrawlStatusQueued) db).
  rewrite (filter_size_split (λ kv, Status kv.2 = CrawlStatusRunning) nq).
  set (nr := filter (λ kv : string * CrawlResult,
                       ¬ Status kv.2 = CrawlStatusRunning) nq).
  rewrite (filter_size_split (λ kv, Status kv.2 = CrawlStatusCompleted) nr).
  assert (Hr : filter (λ kv : string * CrawlResult,
                         Status kv.2 = CrawlStatusRunning) nq
               = filter (λ kv, Status kv.2 = CrawlStatusRunning) db).
  { apply map_eq. intros id. apply option_eq. intros row. subst nq.
    rewrite !map_lookup_filter_Some. cbn. split; [tauto|].
    intros [? Hst]. rewrite Hst. done. }
  assert (Hc : filter (λ kv : string * CrawlResult,
                         Status kv.2 = CrawlStatusCompleted) nr
               = filter (λ kv, Status kv.2 = CrawlStatusCompleted) db).
  { apply map_eq. intros id. apply option_eq. intros row. subst nr nq.
    rewrite !map_lookup_filter_Some. cbn. split; [tauto|].
    intros [? Hst]. rewrite Hst. done. }
  assert (He : filter (λ kv : string * CrawlResult,
                         ¬ Status kv.2 = CrawlStatusCompleted) nr
               = filter (λ kv, Status kv.2 = CrawlStatusError) db).
  { apply map_eq. intros id. apply option_eq. intros row. subst nr nq.
    rewrite !map_lookup_filter_Some. cbn.
    destruct (Status row); split; try tauto; try (intros [? ?]; done). }
  rewrite Hr, Hc, He. lia.
Qed.

(** X8.  The statistics [GetCrawlStats] returns are consistent: the total is
    the number of rows, it is positive, and it is the sum of the four status
    counts.  On a table without rows the call fails (the sums are [NULL]). *)
Theorem GetCrawlStats_consistent (exec : option string) (db : gmap string CrawlResult) :
  (∀ stats, CrawlStorage.GetCrawlStats exec db = inl stats →
     CrawlStorage.stats_Total stats = Z.of_nat (size db)
     ∧ (0 < CrawlStorage.stats_Total stats)%Z
     ∧ CrawlStorage.stats_Total stats
       = (CrawlStorage.stats_Queued stats + CrawlStorage.stats_Running stats
          + CrawlStorage.stats_Completed stats + CrawlStorage.stats_Error stats)%Z)
  ∧ (db = ∅ → ∃ err, CrawlStorage.GetCrawlStats exec db = inr err).
Proof.
  unfold CrawlStorage.GetCrawlStats. split.
  - intros stats. destruct exec; [done|].
    destruct (decide _) as [Hzero|Hsome]; [done|]. intros [= <-]. cbn.
    split_and!; [done | lia | apply count_status_total].
  - intros ->. destruct exec; [eauto|]. rewrite map_size_empty. cbn. eauto.
Qed.

(** ** The queue: remaining paths of EnqueueURL and RequeueTask *)

Section QueueMore.

Context (W : World) (crawler : Crawler).

Ltac unfold_queue :=
  unfold EnqueueURL, RequeueTask, processTask, processTask_work,
    processTask_remove, storage_SaveCrawlResult, storage_UpdateCrawlStatus,
    storage_GetCrawlResult, crawler_AnalyzeURL, activeTasks_insert,
    activeTasks_delete, queue_send_or_default, new_task, load, store_Status,
    uuid_New_String, time_Now_, sql_exec, GetActiveTask,
    database.SaveCrawlResult, database.UpdateCrawlStatus,
    database.GetCrawlResult,
    bind, ret, modify, gets, log.

Lemma buffer_has_room (q : QueueService) :
  (Z.of_nat (length (queue q)) < bufferSize q)%Z →
  ∀ A (a b : A),
    (if decide (Z.of_nat (length (queue q)) < bufferSize q)%Z then a else b) = a.
Proof. intros H A a b. by destruct (decide _). Qed.

Lemma buffer_is_full (q : QueueService) :
  (bufferSize q ≤ Z.of_nat (length (queue q)))%Z →
  ∀ A (a b : A),
    (if decide (Z.of_nat (length (queue q)) < bufferSize q)%Z then a else b) = b.
Proof. intros H A a b. destruct (decide _); [lia | done]. Qed.

(** X9.  When the initial save of [EnqueueURL] fails, the call returns the
    wrapped storage error and takes nothing in: the table, the in-flight map
    and the buffer are as before and no task object is made. *)
Theorem EnqueueURL_save_failure (url e : string) (q : QueueService) :
  ValidateURL crawler url = None →
  db_Exec W (n_db (made q)) = Some e →
  ∃ q',
    EnqueueURL W crawler url q
      = (Error ("failed to save crawl result: failed to save crawl result: "
                +:+ e), q')
    ∧ storage q' = storage q
    ∧ activeTasks q' = activeTasks q
    ∧ queue q' = queue q
    ∧ heap q' = heap q.
Proof.
  intros Hv Hdb. unfold_queue. rewrite Hv. cbn. rewrite Hdb. cbn.
  eexists. split; [reflexivity|]. by cbn.
Qed.


(** X11.  [RequeueTask] of an id that has a row, with the storage answering
    and room in an open buffer, returns no error; the row is [queued] with no
    error text, a new update time and otherwise as before; a new task with that id, the url of
    the row and status [queued] is in flight and is the last one in the
    buffer. *)
Theorem RequeueTask_requeues (id : string) (row : CrawlResult) (q : QueueService) :
  storage q !! id = Some row →
  db_Exec W (n_db (made q)) = None →
  db_Exec W (S (n_db (made q))) = None →
  queue_closed q = false →
  (Z.of_nat (length (queue q)) < bufferSize q)%Z →
  ∃ q' task t row',
    RequeueTask W id q = (Return tt, q')
    ∧ GetActiveTask id q' = Some task
    ∧ heap q' !! task = Some t
    ∧ task_ID t = id ∧ task_URL t = URL row
    ∧ task_Status t = CrawlStatusQueued
    ∧ queue q' = (queue q ++ [task])%list
    ∧ storage q' !! id = Some row'
    ∧ Status row' = CrawlStatusQueued ∧ ErrorMessage row' = None
    ∧ ∃ now, row' = database.set_status CrawlStatusQueued None now row.
Proof.
  intros Hrow Hget Hupd Hopen Hroom.
  unfold_queue. cbn. rewrite Hget. cbn. rewrite Hrow. cbn. rewrite Hupd. cbn.
  rewrite Hopen. rewrite (buffer_has_room q Hroom). cbn.
  eexists _, (length (heap q)), _, _. split; [reflexivity|]. cbn.
  split_and!.
  - apply lookup_insert_eq.
  - by apply list_lookup_middle.
  - reflexivity.
  - reflexivity.
  - reflexivity.
  - reflexivity.
  - rewrite lookup_alter_eq, Hrow. reflexivity.
  - reflexivity.
  - reflexivity.
  - eexists. reflexivity.
Qed.

(** X12.  When the update to [queued] fails, [RequeueTask] returns the
    wrapped error and requeues nothing: the table, the in-flight map and the
    buffer are as before. *)
Theorem RequeueTask_update_failure (id e : string) (row : CrawlResult)
    (q : QueueService) :
  storage q !! id = Some row →
  db_Exec W (n_db (made q)) = None →
  db_Exec W (S (n_db (made q))) = Some e →
  ∃ q',
    RequeueTask W id q
      = (Error ("failed to update status: failed to update crawl status: "
                +:+ e), q')
    ∧ storage q' = storage q
    ∧ activeTasks q' = activeTasks q
    ∧ queue q' = queue q.
Proof.
  intros Hrow Hget Hupd.
  unfold_queue. cbn. rewrite Hget. cbn. rewrite Hrow. cbn. rewrite Hupd. cbn.
  eexists. split; [reflexivity|]. by cbn.
Qed.

(** *** Invariants *)

Ltac case_step :=
  cbn;
  match goal with
  | |- context [match db_Exec ?w ?n with _ => _ end] =>
      destruct (db_Exec w n) eqn:?
  | |- context [match ValidateURL ?c ?u with _ => _ end] =>
      destruct (ValidateURL c u) eqn:?
  | |- context [match AnalyzeURL ?c ?n ?u with _ => _ end] =>
      destruct (AnalyzeURL c n u) eqn:?
  | |- context [match queue_closed ?q with _ => _ end] =>
      destruct (queue_closed q) eqn:?
  | |- context [match decide ?P with _ => _ end] => destruct (decide P)
  | |- context [match storage ?q !! ?id with _ => _ end] =>
      destruct (storage q !! id) eqn:?
  end.

Ltac all_cases := unfold_queue; repeat case_step; cbn.

Lemma EnqueueURL_admission (url : string) (q : QueueService) :
  admission (uuid_New W (n_uuid (made q))) q (EnqueueURL W crawler url q).2.
Proof.
  unfold admission. all_cases;
    (split_and!; [done | done | eauto | eauto with lia | ]);
    rewrite ?length_app; cbn; eauto 6 with lia.
  all: rewrite ?delete_insert_eq; eauto 6.
Qed.

Lemma RequeueTask_admission (id : string) (q : QueueService) :
  admission id q (RequeueTask W id q).2.
Proof.
  unfold admission. all_cases;
    (split_and!; [done | done | eauto | eauto with lia | ]);
    rewrite ?length_app; cbn; eauto 6 with lia.
  all: rewrite ?delete_insert_eq; eauto 6.
Qed.

Lemma admission_within_capacity (id : string) (q q' : QueueService) :
  admission id q q' → within_capacity q → within_capacity q'.
Proof.
  unfold within_capacity. cbn.
  intros (Hcap & _ & _ & [Hq|(Hq & _ & Hroom)] & _) Hin; rewrite Hq, Hcap.
  - done.
  - rewrite length_app. cbn. lia.
Qed.

Lemma admission_pointers_valid (id : string) (q q' : QueueService) :
  admission id q q' → pointers_valid q → pointers_valid q'.
Proof.
  intros (_ & Hwg & Hheap & Hqueue & Hactive) (Hq & Ha & Hw).
  assert (Hgrow : ∀ task t, heap q !! task = Some t → heap q' !! task = Some t).
  { intros task t Ht. destruct Hheap as [->|(t0 & -> & _)]; [done|].
    by apply lookup_app_l_Some. }
  assert (Hlen : (length (heap q) ≤ length (heap q'))%nat).
  { destruct Hheap as [->|(t0 & -> & _)]; [done|]. rewrite length_app. lia. }
  split_and!.
  - intros task Htask. destruct Hqueue as [Heq|(Heq & Hnew & _)];
      rewrite Heq in Htask.
    + specialize (Hq task Htask). lia.
    + apply elem_of_app in Htask as [Htask|Htask].
      * specialize (Hq task Htask). lia.
      * apply list_elem_of_singleton in Htask as ->. done.
  - intros id' task Htask.
    destruct Hactive as [Heq|[(Heq & t0 & Hh & Hid)|Heq]]; rewrite Heq in Htask.
    + destruct (Ha id' task Htask) as (t & Ht & Hidt). eauto.
    + apply lookup_insert_Some in Htask as [[<- <-]|[Hne Htask]].
      * exists t0. split; [|done]. rewrite Hh. by apply list_lookup_middle.
      * destruct (Ha id' task Htask) as (t & Ht & Hidt). eauto.
    + apply lookup_delete_Some in Htask as [Hne Htask].
      destruct (Ha id' task Htask) as (t & Ht & Hidt). eauto.
  - intros w task Htask. rewrite Hwg in Htask. specialize (Hw w task Htask). lia.
Qed.

(** [processTask] short of its last lines marks the task [running] in place
    and leaves the in-flight map and the capacity alone. *)
Lemma processTask_work_heap (task : ptr) (q : QueueService) :
  let q' := (processTask_work W crawler task q).2 in
  activeTasks q' = activeTasks q
  ∧ bufferSize q' = bufferSize q
  ∧ length (heap q') = length (heap q)
  ∧ ∀ task' t, heap q !! task' = Some t →
      ∃ t', heap q' !! task' = Some t' ∧ task_ID t' = task_ID t.
Proof.
  cbn. split_and!; try (all_cases; rewrite ?length_insert; reflexivity).
  intros task' t Ht.
  assert (Hgoal : ∃ t', (<[task := {|
                    task_ID := task_ID (heap q !!! task);
                    task_URL := task_URL (heap q !!! task);
                    task_CreatedAt := task_CreatedAt (heap q !!! task);
                    task_Status := CrawlStatusRunning |}]> (heap q)) !! task'
                  = Some t' ∧ task_ID t' = task_ID t).
  { rewrite list_lookup_insert. case_decide as Hc; [|eauto].
    destruct Hc as [<- _]. eexists. split; [reflexivity|]. cbn.
    by rewrite (list_lookup_total_correct _ _ _ Ht). }
  all_cases; exact Hgoal.
Qed.

(** X13.  The buffer never holds more tasks than the capacity of the
    channel, as [GetQueueStats] reports its length: a new service with a
    non-negative capacity is within it, and [EnqueueURL], [RequeueTask],
    [Start], [Stop], [processTask] and every step of the worker loops keep it
    so. *)
Theorem within_capacity_kept (q : QueueService) :
  (∀ Workers BufferSize MaxRetries RetryDelay db,
     (0 ≤ BufferSize)%Z →
     within_capacity
       (NewQueueServiceWithConfig Workers BufferSize MaxRetries RetryDelay db))
  ∧ (within_capacity q →
     (∀ url, within_capacity (EnqueueURL W crawler url q).2)
     ∧ (∀ id, within_capacity (RequeueTask W id q).2)
     ∧ within_capacity (Start q).2
     ∧ within_capacity (Stop q).2
     ∧ (∀ task, within_capacity (processTask W crawler task q).2)
     ∧ (∀ a mu p', perform W crawler a {| mu_held_by_Stop := mu; svc := q |}
                     = Some p' → within_capacity (svc p'))).
Proof.
  split; [intros; unfold within_capacity; by cbn|].
  intros Hin. split_and!.
  - intros url. eapply admission_within_capacity; [apply EnqueueURL_admission|done].
  - intros id. eapply admission_within_capacity; [apply RequeueTask_admission|done].
  - unfold Start, within_capacity in *. by destruct (running q).
  - unfold Stop, within_capacity in *.
    destruct (running q); cbn; [|done]. by destruct (queue_closed q).
  - intros task. unfold within_capacity in *. all_cases; exact Hin.
  - intros a mu p'. unfold perform. cbn. destruct a as [id c|id|].
    + destruct (wg q !! id) as [[| |]|]; try done.
      destruct c; unfold worker, queue_receive.
      * destruct (queue q) as [|task rest] eqn:Hq.
        -- destruct (queue_closed q); [|done]. intros [= <-].
           unfold within_capacity in *. cbn in *. exact Hin.
        -- pose proof (processTask_work_frame W crawler task
                         (log (Received task) (set_queue rest q))) as Hframe.
           pose proof (processTask_work_heap task
                         (log (Received task) (set_queue rest q))) as Hheap.
           unfold bind, set_goroutine, modify.
           cbn -[processTask_work] in *.
           destruct (processTask_work W crawler task _) as [u q1].
           cbn in Hframe, Hheap. destruct Hframe as (Hqueue & _).
           destruct Hheap as (_ & Hcap & _).
           intros [= <-]. unfold within_capacity in *. cbn in *.
           rewrite Hqueue, Hcap. rewrite Hq in Hin. cbn in Hin. lia.
      * destruct (ctx_done q); [|done]. intros [= <-]. done.
    + destruct (wg q !! id) as [[|task|]|]; try done.
      destruct mu; [done|]. intros [= <-]. done.
    + destruct (mu && forallb is_exited (wg q)); [|done]. by intros [= <-].
Qed.

Lemma processTask_work_pointers_valid (task : ptr) (q : QueueService) :
  pointers_valid q → pointers_valid (processTask_work W crawler task q).2.
Proof.
  intros (Hq & Ha & Hw).
  pose proof (processTask_work_frame W crawler task q) as (Hqueue & _ & Hwg & _).
  pose proof (processTask_work_heap task q) as (Hactive & _ & Hlen & Hheap).
  cbn -[processTask_work] in *.
  destruct (processTask_work W crawler task q) as [u q1]. cbn in *.
  split_and!.
  - intros t Ht. rewrite Hqueue in Ht. rewrite Hlen. by apply Hq.
  - intros id t Ht. rewrite Hactive in Ht.
    destruct (Ha id t Ht) as (t0 & Ht0 & Hid).
    destruct (Hheap t t0 Ht0) as (t1 & Ht1 & Hid1). exists t1. split; [exact Ht1 | by rewrite Hid1].
  - intros w t Ht. rewrite Hwg in Ht. rewrite Hlen. by eapply Hw.
Qed.

Lemma set_goroutine_pointers_valid (w : nat) (g : goroutine) (q : QueueService) :
  pointers_valid q →
  (∀ task, g = AtLock task → task < length (heap q)) →
  pointers_valid (set_wg (<[w := g]> (wg q)) q).
Proof.
  intros (Hq & Ha & Hw) Hg. split_and!; [done | done |]. cbn.
  intros w' task Htask. apply list_lookup_insert_Some in Htask
    as [(_ & Heq & _)|[_ Htask]]; [by apply Hg | by eapply Hw].
Qed.

Lemma processTask_remove_pointers_valid (task : ptr) (q : QueueService) :
  pointers_valid q → pointers_valid (processTask_remove task q).2.
Proof.
  intros (Hq & Ha & Hw). split_and!; [done | | done]. cbn.
  intros id t Ht. apply lookup_delete_Some in Ht as [_ Ht]. by apply Ha.
Qed.

Lemma pointers_valid_new (Workers BufferSize MaxRetries RetryDelay : Z)
    (db : gmap string CrawlResult) :
  pointers_valid
    (NewQueueServiceWithConfig Workers BufferSize MaxRetries RetryDelay db).
Proof.
  split_and!; cbn.
  - by intros task ?%elem_of_nil.
  - intros id task Ha. by rewrite lookup_empty in Ha.
  - intros w task Hw. by rewrite lookup_nil in Hw.
Qed.

(** X14.  Every pointer the service holds (in the buffer, in the in-flight
    map, in a worker that is finishing a task) is an allocated task, and the
    in-flight map files each task under the task's own id: a new service
    satisfies this, and [EnqueueURL], [RequeueTask], [Start], [Stop],
    [processTask] and every step of the worker loops keep it so. *)
Theorem pointers_valid_kept (q : QueueService) :
  (∀ Workers BufferSize MaxRetries RetryDelay db,
     pointers_valid
       (NewQueueServiceWithConfig Workers BufferSize MaxRetries RetryDelay db))
  ∧ (pointers_valid q →
     (∀ url, pointers_valid (EnqueueURL W crawler url q).2)
     ∧ (∀ id, pointers_valid (RequeueTask W id q).2)
     ∧ pointers_valid (Start q).2
     ∧ pointers_valid (Stop q).2
     ∧ (∀ task, pointers_valid (processTask W crawler task q).2)
     ∧ (∀ a mu p', perform W crawler a {| mu_held_by_Stop := mu; svc := q |}
                     = Some p' → pointers_valid (svc p'))).
Proof.
  split; [apply pointers_valid_new|].
  intros Hin. split_and!.
  - intros url. eapply admission_pointers_valid; [apply EnqueueURL_admission|done].
  - intros id. eapply admission_pointers_valid; [apply RequeueTask_admission|done].
  - unfold Start. destruct (running q); [done|]. cbn.
    destruct Hin as (Hq & Ha & Hw). split_and!; [done | done |]. cbn.
    intros w task Htask. apply lookup_app_Some in Htask as [Htask|[_ Htask]].
    + by eapply Hw.
    + by apply lookup_replicate in Htask as [? _].
  - unfold Stop. destruct (running q); cbn; [|done].
    by destruct (queue_closed q).
  - intros task. unfold processTask, bind.
    pose proof (processTask_work_pointers_valid task q Hin) as Hwork.
    destruct (processTask_work W crawler task q) as [u q1].
    by apply processTask_remove_pointers_valid.
  - intros a mu p'. unfold perform. cbn. destruct a as [id c|id|].
    + destruct (wg q !! id) as [[| |]|]; try done.
      destruct c; unfold worker, queue_receive.
      * destruct (queue q) as [|task rest] eqn:Hq.
        -- destruct (queue_closed q); [|done]. intros [= <-]. cbn.
           by apply set_goroutine_pointers_valid.
        -- assert (Hrest : pointers_valid (log (Received task) (set_queue rest q))).
           { destruct Hin as (Hqueue & Ha & Hw). split_and!; [|done..]. cbn.
             intros t Ht. apply Hqueue. rewrite Hq. by apply elem_of_cons; right. }
           assert (Htask : task < length (heap q)).
           { destruct Hin as (Hqueue & _). apply Hqueue. rewrite Hq.
             by apply elem_of_cons; left. }
           pose proof (processTask_work_pointers_valid task _ Hrest) as Hwork.
           pose proof (processTask_work_heap task
                         (log (Received task) (set_queue rest q)))
             as (_ & _ & Hlen & _).
           unfold bind, set_goroutine, modify.
           cbn -[processTask_work] in *.
           destruct (processTask_work W crawler task _) as [u q1].
           cbn in *. intros [= <-]. cbn.
           apply set_goroutine_pointers_valid; [done|].
           intros t [= <-]. by rewrite Hlen.
      * destruct (ctx_done q); [|done]. intros [= <-]. cbn.
        by apply set_goroutine_pointers_valid.
    + destruct (wg q !! id) as [[|task|]|]; try done.
      destruct mu; [done|]. intros [= <-]. cbn.
      apply (set_goroutine_pointers_valid id AtSelect
               (processTask_remove task q).2); [|done].
      by apply processTask_remove_pointers_valid.
    + destruct (mu && forallb is_exited (wg q)); [|done]. by intros [= <-].
Qed.

(** *** From submission to completion *)





(** *** Shutting down an idle pool *)





(** *** Back-pressure *)

Lemma EnqueueURL_open (url : string) (q : QueueService) :
  (∀ n, db_Exec W n = None) →
  ValidateURL crawler url = None →
  queue_closed q = false →
  ∃ o q',
    EnqueueURL W crawler url q = (o, q')
    ∧ queue_closed q' = false
    ∧ bufferSize q' = bufferSize q
    ∧ (((Z.of_nat (length (queue q)) < bufferSize q)%Z
        ∧ is_Return o = true
        ∧ length (queue q') = S (length (queue q)))
       ∨ ((bufferSize q ≤ Z.of_nat (length (queue q)))%Z
          ∧ o = Error "queue is full, please try again later"
          ∧ queue q' = queue q)).
Proof.
  intros Hdb Hv Hopen. unfold_queue. rewrite Hv. cbn. rewrite !Hdb. cbn.
  rewrite Hopen. destruct (decide _) as [Hroom|Hfull]; cbn.
  - eexists _, _. split; [reflexivity|]. cbn. split_and!; [done | done |].
    left. split_and!; [done | done |]. rewrite length_app. cbn. lia.
  - rewrite Hdb. cbn. eexists _, _. split; [reflexivity|]. cbn.
    split_and!; [done | done |]. right. split_and!; [lia | done | done].
Qed.

(** X17.  Targets submitted one after the other to an open channel, with no
    worker taking tasks and the storage answering: as many are accepted as
    the buffer has free places, in order, and every later one is refused
    with the queue-full error. *)
Theorem EnqueueEach_fills_buffer (urls : list string) (q : QueueService) :
  (∀ n, db_Exec W n = None) →
  Forall (λ url, ValidateURL crawler url = None) urls →
  queue_closed q = false →
  within_capacity q →
  let room := Z.to_nat (bufferSize q - Z.of_nat (length (queue q))) in
  let os := (EnqueueEach W crawler urls q).1 in
  let q' := (EnqueueEach W crawler urls q).2 in
  length os = length urls
  ∧ Forall (λ o, is_Return o = true) (take room os)
  ∧ Forall (λ o, o = Error "queue is full, please try again later") (drop room os)
  ∧ length (queue q') = (length (queue q) + (room `min` length urls))%nat.
Proof.
  intros Hdb Hvalid. revert q.
  induction Hvalid as [|url urls Hv Hvalid IH]; intros q Hopen Hcap; cbn.
  { rewrite take_nil, drop_nil. split_and!; [done | done | done | lia]. }
  unfold within_capacity in Hcap. cbn in Hcap.
  destruct (EnqueueURL_open url q Hdb Hv Hopen)
    as (o & q1 & Hcall & Hopen1 & Hsize1 & Hcase).
  unfold bind. rewrite Hcall.
  assert (Hcap1 : within_capacity q1).
  { unfold within_capacity. cbn. rewrite Hsize1.
    destruct Hcase as [(? & _ & Hlen)|(? & _ & Hq)]; [rewrite Hlen | rewrite Hq]; lia. }
  specialize (IH q1 Hopen1 Hcap1). cbn in IH.
  destruct (EnqueueEach W crawler urls q1) as [os q2]. cbn in *.
  destruct IH as (Hlen & Htake & Hdrop & Hqueue). rewrite Hsize1 in *.
  destruct Hcase as [(Hroom & Hret & Hlen1)|(Hfull & -> & Hq1)].
  - rewrite Hlen1 in *.
    replace (Z.to_nat (bufferSize q - Z.of_nat (length (queue q))))
      with (S (Z.to_nat (bufferSize q - Z.of_nat (S (length (queue q))))))
      by lia.
    cbn. split_and!; [by rewrite Hlen | by constructor | done | lia].
  - rewrite Hq1 in *.
    replace (Z.to_nat (bufferSize q - Z.of_nat (length (queue q)))) with 0%nat
      in * by lia.
    cbn in *. split_and!; [by rewrite Hlen | done | by constructor | lia].
Qed.

End QueueMore.

(** ** The Firecrawl service: login forms *)

Lemma string_app_assoc (a b c : string) : (a +:+ b) +:+ c = a +:+ b +:+ c.
Proof.
  induction a as [|x a IH]; [done|].
  change (String x ((a +:+ b) +:+ c) = String x (a +:+ b +:+ c)).
  by rewrite IH.
Qed.

Lemma Contains_trans (s p r : string) :
  strings.Contains s p = true → strings.Contains p r = true →
  strings.Contains s r = true.
Proof.
  rewrite !Contains_app. intros (a & b & ->) (c & d & ->).
  exists (a +:+ c), (d +:+ b). by rewrite !string_app_assoc.
Qed.

Lemma countIndicators_app (l : string) (xs ys : list string) :
  countIndicators l (xs ++ ys)
  = (countIndicators l xs + countIndicators l ys)%Z.
Proof.
  induction xs as [|x xs IH]; cbn; [done|]. rewrite IH. lia.
Qed.

Lemma countIndicators_nonneg (l : string) (xs : list string) :
  (0 ≤ countIndicators l xs)%Z.
Proof.
  induction xs as [|x xs IH]; cbn; [done|].
  destruct (strings.Contains l x); lia.
Qed.

(** X18.  [detectLoginForm] answers [true] exactly when the lower-cased page
    contains [type="password"] or [type='password']: a page with such a field
    always holds the indicators "password" and "pass", so the count of login
    indicators never turns a page with a password field down. *)
Theorem detectLoginForm_iff_password_field (To_LowerCase : Z → Z) (html : string) :
  detectLoginForm To_LowerCase html = true ↔
  strings.Contains (strings.ToLower To_LowerCase html)
    ("type=" +:+ dq +:+ "password" +:+ dq) = true
  ∨ strings.Contains (strings.ToLower To_LowerCase html) "type='password'" = true.
Proof.
  unfold detectLoginForm. set (l := strings.ToLower To_LowerCase html).
  assert (Hfield : existsb (strings.Contains l) passwordPatterns = true ↔
            strings.Contains l ("type=" +:+ dq +:+ "password" +:+ dq) = true
            ∨ strings.Contains l "type='password'" = true).
  { cbn [passwordPatterns existsb]. rewrite !orb_true_iff. split.
    - intros [H|[H|[H|[H|H]]]]; [by left | by right | left | right | done].
      + by apply (Contains_trans _ _ _ H).
      + by apply (Contains_trans _ _ _ H).
    - intros [H|H]; [by left | by right; left]. }
  destruct (existsb (strings.Contains l) passwordPatterns) eqn:Hex; cbn [negb].
  - rewrite <- Hfield. split; [done|]. intros _. apply bool_decide_eq_true.
    assert (Hword : strings.Contains l "password" = true).
    { destruct (proj1 Hfield eq_refl) as [H|H];
        by apply (Contains_trans _ _ _ H). }
    assert (Hpass : strings.Contains l "pass" = true).
    { by apply (Contains_trans _ _ _ Hword). }
    change loginIndicators with
      (["login"; "signin"; "sign-in"; "log-in"; "auth"; "authentication";
        "username"; "email"; "user"; "account"]
       ++ ["password"; "pwd"; "pass"]
       ++ ["submit"; "button"; "loginform"; "authform"; "signupform"])%list.
    rewrite !countIndicators_app.
    pose proof (countIndicators_nonneg l
      ["login"; "signin"; "sign-in"; "log-in"; "auth"; "authentication";
       "username"; "email"; "user"; "account"]).
    pose proof (countIndicators_nonneg l
      ["submit"; "button"; "loginform"; "authform"; "signupform"]).
    assert (2 ≤ countIndicators l ["password"; "pwd"; "pass"])%Z.
    { cbn [countIndicators]. rewrite Hword, Hpass.
      destruct (strings.Contains l "pwd"); lia. }
    lia.
  - rewrite <- Hfield. split; intros [=].
Qed.

(** ** The middleware: authentication *)

Import middleware.

Section AuthProperties.
Context (sha256hex : string → string).

Lemma NewAuthConfig_SkipPaths (keys : list (string * string)) :
  SkipPaths (NewAuthConfig sha256hex keys) = ["/health"; "/api/health"; "/"].
Proof.
  unfold NewAuthConfig.
  generalize (∅ : gmap string string).
  induction keys as [|kn keys IH]; intros m; [done|]. apply IH.
Qed.

Lemma HasPrefix_slash (path rest : string) :
  strings.HasPrefix path (String "/" rest) = true →
  strings.HasPrefix path "/" = true.
Proof.
  rewrite !HasPrefix_app. intros [tail ->]. by exists (rest +:+ tail).
Qed.

Lemma shouldSkipAuth_NewAuthConfig (keys : list (string * string)) (path : string) :
  shouldSkipAuth (NewAuthConfig sha256hex keys) path = strings.HasPrefix path "/".
Proof.
  unfold shouldSkipAuth. rewrite NewAuthConfig_SkipPaths. cbn [existsb].
  destruct (strings.HasPrefix path "/") eqn:Hroot.
  - by rewrite !orb_true_r.
  - rewrite orb_false_r.
    assert (Hno : ∀ rest, strings.HasPrefix path (String "/" rest) = false).
    { intros rest. destruct (strings.HasPrefix path (String "/" rest)) eqn:H;
        [|done]. apply HasPrefix_slash in H. congruence. }
    rewrite !Hno, !orb_false_r.
    assert (Hne : ∀ rest, bool_decide (path = String "/" rest) = false).
    { intros rest. apply bool_decide_eq_false. intros ->.
      specialize (Hno rest). rewrite (proj2 (HasPrefix_app _ _)) in Hno;
        [done|]. by exists "". }
    by rewrite !Hne.
Qed.

(** X19.  With the configuration [NewAuthConfig] builds, whatever keys it is
    given, a request whose path starts with a slash is handed on without its
    [Authorization] header being read: the skip path ["/"] is a prefix of
    every such path. *)
Theorem AuthMiddleware_skips_rooted_paths (keys : list (string * string))
    (path authHeader : string) :
  strings.HasPrefix path "/" = true →
  AuthMiddleware sha256hex (NewAuthConfig sha256hex keys) path authHeader
  = Next None.
Proof.
  intros Hroot. unfold AuthMiddleware.
  by rewrite shouldSkipAuth_NewAuthConfig, Hroot.
Qed.

Lemma cut_at_space_Some (s before after : string) :
  cut_at_space s = Some (before, after) → s = before +:+ " " +:+ after.
Proof.
  revert before. induction s as [|c s IH]; intros before; cbn; [done|].
  destruct (decide (c = " "%char)) as [->|_].
  - by intros [= <- <-].
  - destruct (cut_at_space s) as [[b a]|]; [|done].
    intros [= <- <-]. by rewrite (IH b eq_refl).
Qed.

(** X20.  The middleware hands a request on as authenticated, with the
    name and hash of a key, exactly when the path is not skipped, the
    header is ["Bearer "] followed by a key that is not empty, and the
    SHA-256 of that key is registered under that name. *)
Theorem AuthMiddleware_authenticates_iff (config : AuthConfig)
    (path authHeader name keyHash : string) :
  AuthMiddleware sha256hex config path authHeader = Next (Some (name, keyHash))
  ↔ shouldSkipAuth config path = false
    ∧ ∃ apiKey, authHeader = "Bearer " +:+ apiKey ∧ apiKey ≠ ""
                ∧ keyHash = sha256hex apiKey
                ∧ APIKeys config !! keyHash = Some name.
Proof.
  unfold AuthMiddleware, SplitN_space_2. split.
  - destruct (shouldSkipAuth config path); [done|].
    destruct (decide (authHeader = "")); [done|].
    destruct (cut_at_space authHeader) as [[scheme apiKey]|] eqn:Hcut; [|done].
    destruct (decide (scheme = "Bearer")) as [->|]; [|done].
    destruct (decide (apiKey = "")); [done|].
    destruct (APIKeys config !! sha256hex apiKey) eqn:Hkey; [|done].
    intros [= <- <-]. split; [done|]. exists apiKey.
    split; [|done]. by apply cut_at_space_Some in Hcut.
  - intros [-> (apiKey & -> & Hne & -> & Hkey)].
    destruct (decide ("Bearer " +:+ apiKey = "")) as [Heq|_]; [done|].
    change (cut_at_space ("Bearer " +:+ apiKey)) with (Some ("Bearer", apiKey)).
    destruct (decide ("Bearer" = "Bearer")); [|done].
    destruct (decide (apiKey = "")); [done|]. by rewrite Hkey.
Qed.

(** X21.  A key added with [AddAPIKey] authenticates: a request on a path
    that is not skipped carrying ["Bearer "] and that key is handed on under
    the key's name, whatever was registered before. *)
Theorem AddAPIKey_then_authenticates (config : AuthConfig)
    (key name path : string) :
  key ≠ "" →
  shouldSkipAuth config path = false →
  AuthMiddleware sha256hex (AddAPIKey sha256hex key name config) path
    ("Bearer " +:+ key)
  = Next (Some (name, sha256hex key)).
Proof.
  intros Hne Hskip. unfold AuthMiddleware, SplitN_space_2.
  change (shouldSkipAuth (AddAPIKey sha256hex key name config) path)
    with (shouldSkipAuth config path). rewrite Hskip.
  destruct (decide ("Bearer " +:+ key = "")) as [Heq|_]; [done|].
  change (cut_at_space ("Bearer " +:+ key)) with (Some ("Bearer", key)).
  destruct (decide ("Bearer" = "Bearer")); [|done].
  destruct (decide (key = "")); [done|].
  cbn [AddAPIKey APIKeys]. by rewrite lookup_insert_eq.
Qed.

End AuthProperties.

(** ** The middleware: the rate limiter *)






(** X23.  The limiter never stores more than [RequestsPerMinute] times for
    a key: if that holds before a request it holds after it, whatever the
    key and the time of the request. *)
Theorem RateLimitMiddleware_bounded (config : RateLimitConfig) (key : string)
    (now : Z) (requests : gmap string (list Z)) :
  bounded config requests →
  bounded config (RateLimitMiddleware config key now requests).2.
Proof.
  intros Hb. unfold RateLimitMiddleware.
  set (requests1 := match requests !! key with
                    | Some times => _ | None => requests end).
  assert (Hone : bounded config requests1).
  { intros k times. unfold requests1.
    destruct (requests !! key) as [old|] eqn:Hold; [|apply Hb].
    destruct (decide (k = key)) as [->|Hk].
    - rewrite lookup_insert_eq. intros [= <-].
      pose proof (Hb key old Hold).
      pose proof (length_filter (λ r, (now - WindowSize config < r)%Z) old).
      lia.
    - rewrite lookup_insert_ne by done. apply Hb. }
  destruct (decide (RequestsPerMinute config
                    ≤ Z.of_nat (length (default [] (requests1 !! key))))%Z)
    as [Hfull|Hroom]; cbn [snd]; [done|].
  intros k times. destruct (decide (k = key)) as [->|Hk].
  - rewrite lookup_insert_eq. intros [= <-]. rewrite length_app. cbn [length]. lia.
  - rewrite lookup_insert_ne by done. apply Hone.
Qed.

(** ** Listings: filters and pages *)

(** X24.  [Validate] normalises the filters it is given, also when it
    returns the error: the page is at least 1, the page size lies between 1
    and 100, the sort column is not empty and the direction is [asc] or
    [desc]; status and search text are kept; the error is returned exactly
    for a status that is not one of the four; and validating the outcome
    again changes nothing. *)
Theorem Validate_normalises (f : CrawlFilters.t) :
  let f' := (CrawlFilters.Validate f).1 in
  (1 ≤ CrawlFilters.Page f')%Z
  ∧ (1 ≤ CrawlFilters.PageSize f' ≤ 100)%Z
  ∧ CrawlFilters.SortBy f' ≠ ""
  ∧ (CrawlFilters.SortDir f' = "asc" ∨ CrawlFilters.SortDir f' = "desc")
  ∧ CrawlFilters.Status f' = CrawlFilters.Status f
  ∧ CrawlFilters.Search f' = CrawlFilters.Search f
  ∧ ((CrawlFilters.Validate f).2 = None ↔
     ∀ status, CrawlFilters.Status f = Some status → IsValid status = true)
  ∧ CrawlFilters.Validate f' = CrawlFilters.Validate f.
Proof.
  destruct f as [status search page pageSize sortBy sortDir].
  unfold CrawlFilters.Validate. cbn [CrawlFilters.Status CrawlFilters.Search
    CrawlFilters.Page CrawlFilters.PageSize CrawlFilters.SortBy
    CrawlFilters.SortDir].
  set (page' := if decide (page < 1)%Z then 1%Z else page).
  set (pageSize' := if decide (pageSize < 1 ∨ 100 < pageSize)%Z then 10%Z
                    else pageSize).
  set (sortBy' := if decide (sortBy = "") then "updated_at" else sortBy).
  set (sortDir' := if decide (sortDir ≠ "asc" ∧ sortDir ≠ "desc") then "desc"
                   else sortDir).
  assert (Hpage : (1 ≤ page')%Z)
    by (unfold page'; destruct (decide (page < 1)%Z); lia).
  assert (Hsize : (1 ≤ pageSize' ≤ 100)%Z)
    by (unfold pageSize'; destruct (decide (pageSize < 1 ∨ 100 < pageSize)%Z); lia).
  assert (Hby : sortBy' ≠ "")
    by (unfold sortBy'; destruct (decide (sortBy = "")); [by intros [=] | done]).
  assert (Hdir : sortDir' = "asc" ∨ sortDir' = "desc").
  { unfold sortDir'.
    destruct (decide (sortDir ≠ "asc" ∧ sortDir ≠ "desc")) as [_|Hn]; [by right|].
    destruct (decide (sortDir = "asc")); [by left|].
    destruct (decide (sortDir = "desc")); [by right|]. by destruct Hn. }
  assert (Hfix :
    {| CrawlFilters.Status := status; CrawlFilters.Search := search;
       CrawlFilters.Page := if decide (page' < 1)%Z then 1%Z else page';
       CrawlFilters.PageSize :=
         if decide (pageSize' < 1 ∨ 100 < pageSize')%Z then 10%Z else pageSize';
       CrawlFilters.SortBy :=
         if decide (sortBy' = "") then "updated_at" else sortBy';
       CrawlFilters.SortDir :=
         if decide (sortDir' ≠ "asc" ∧ sortDir' ≠ "desc") then "desc"
         else sortDir' |}
    = {| CrawlFilters.Status := status; CrawlFilters.Search := search;
         CrawlFilters.Page := page'; CrawlFilters.PageSize := pageSize';
         CrawlFilters.SortBy := sortBy'; CrawlFilters.SortDir := sortDir' |}).
  { f_equal.
    - destruct (decide (page' < 1)%Z); [lia|done].
    - destruct (decide (pageSize' < 1 ∨ 100 < pageSize')%Z); [lia|done].
    - by destruct (decide (sortBy' = "")).
    - destruct (decide (sortDir' ≠ "asc" ∧ sortDir' ≠ "desc")) as [[H1 H2]|_];
        [by destruct Hdir | done]. }
  destruct status as [status|]; [destruct (IsValid status) eqn:Hvalid|];
    cbn [negb fst snd CrawlFilters.Status CrawlFilters.Search CrawlFilters.Page
         CrawlFilters.PageSize CrawlFilters.SortBy CrawlFilters.SortDir].
  - rewrite Hvalid. cbn [negb]. rewrite Hfix.
    refine (conj Hpage (conj Hsize (conj Hby (conj Hdir
              (conj eq_refl (conj eq_refl (conj _ eq_refl))))))).
    split; [|done]. by intros _ s [= <-].
  - rewrite Hvalid. cbn [negb]. rewrite Hfix.
    refine (conj Hpage (conj Hsize (conj Hby (conj Hdir
              (conj eq_refl (conj eq_refl (conj _ eq_refl))))))).
    split; [done|]. intros H. specialize (H status eq_refl). congruence.
  - rewrite Hfix.
    refine (conj Hpage (conj Hsize (conj Hby (conj Hdir
              (conj eq_refl (conj eq_refl (conj _ eq_refl))))))).
    split; [|done]. by intros _ s.
Qed.

Lemma IsValid_parsed (status : string) :
  IsValid status = true →
  status = "queued" ∨ status = "running" ∨ status = "completed"
  ∨ status = "error".
Proof. unfold IsValid. by intros ?%bool_decide_eq_true. Qed.

(** X25.  The filters the handler [GetCrawlResults] builds from the query
    parameters, whatever these are, pass [Validate] without being changed
    and without error; the sort column is one of the seven allowed columns
    and the direction is [asc] or [desc], so that nothing a client sends
    reaches the [ORDER BY] clause. *)
Theorem parseFilters_valid (page pageSize : option Z)
    (search status sortBy sortDir : string) :
  let filters :=
    handlers.parseFilters page pageSize search status sortBy sortDir in
  CrawlFilters.Validate filters = (filters, None)
  ∧ CrawlFilters.SortBy filters ∈ handlers.allowedFields
  ∧ (CrawlFilters.SortDir filters = "asc" ∨ CrawlFilters.SortDir filters = "desc").
Proof.
  cbn zeta.
  set (filters := handlers.parseFilters page pageSize search status sortBy sortDir).
  assert (Hpage : (1 ≤ CrawlFilters.Page filters)%Z).
  { cbn. destruct page as [p|]; [destruct (decide (0 < p)%Z)|]; cbn; lia. }
  assert (Hsize : (1 ≤ CrawlFilters.PageSize filters ≤ 100)%Z).
  { cbn. destruct pageSize as [p|];
      [destruct (decide (0 < p ∧ p ≤ 100)%Z)|]; cbn; lia. }
  assert (Hby : CrawlFilters.SortBy filters ∈ handlers.allowedFields).
  { assert (Hdefault : "updated_at" ∈ handlers.allowedFields)
      by (unfold handlers.allowedFields; repeat constructor).
    cbn. destruct (decide (sortBy ≠ "")); [|done].
    destruct (bool_decide (sortBy ∈ handlers.allowedFields)) eqn:Hin;
      [by apply bool_decide_eq_true in Hin | done]. }
  assert (Hdir : CrawlFilters.SortDir filters = "asc"
                 ∨ CrawlFilters.SortDir filters = "desc").
  { cbn. destruct (decide (sortDir = "asc" ∨ sortDir = "desc")); [done|by right]. }
  assert (Hstatus : ∀ s, CrawlFilters.Status filters = Some s → IsValid s = true).
  { cbn. intros s. destruct (decide (status ≠ "")); [|done].
    destruct (IsValid status) eqn:Hv; [|done]. by intros [= <-]. }
  split_and!; [|done|done].
  assert (Hne : CrawlFilters.SortBy filters ≠ "").
  { intros Hempty. rewrite Hempty in Hby.
    assert (Hout : bool_decide ("" ∈ handlers.allowedFields) = false)
      by (vm_compute; reflexivity).
    by apply bool_decide_eq_false in Hout. }
  unfold CrawlFilters.Validate.
  assert (Hsame :
    {| CrawlFilters.Status := CrawlFilters.Status filters;
       CrawlFilters.Search := CrawlFilters.Search filters;
       CrawlFilters.Page :=
         if decide (CrawlFilters.Page filters < 1)%Z then 1%Z
         else CrawlFilters.Page filters;
       CrawlFilters.PageSize :=
         if decide (CrawlFilters.PageSize filters < 1
                    ∨ 100 < CrawlFilters.PageSize filters)%Z then 10%Z
         else CrawlFilters.PageSize filters;
       CrawlFilters.SortBy :=
         if decide (CrawlFilters.SortBy filters = "") then "updated_at"
         else CrawlFilters.SortBy filters;
       CrawlFilters.SortDir :=
         if decide (CrawlFilters.SortDir filters ≠ "asc"
                    ∧ CrawlFilters.SortDir filters ≠ "desc") then "desc"
         else CrawlFilters.SortDir filters |} = filters).
  { destruct filters as [st se pa ps sb sd]. cbn in *. f_equal.
    - destruct (decide (pa < 1)%Z); [lia|done].
    - destruct (decide (ps < 1 ∨ 100 < ps)%Z); [lia|done].
    - by destruct (decide (sb = "")).
    - destruct (decide (sd ≠ "asc" ∧ sd ≠ "desc")) as [[H1 H2]|_];
        [by destruct Hdir | done]. }
  rewrite Hsame.
  destruct (CrawlFilters.Status filters) as [s|] eqn:Hs; [|done].
  by rewrite (Hstatus s eq_refl).
Qed.

Lemma int_wrap_small (z : Z) : (- 2 ^ 63 ≤ z < 2 ^ 63)%Z → int_wrap z = z.
Proof.
  intros Hz. unfold int_wrap. rewrite Z.mod_small; lia.
Qed.

Lemma Validate_bounds (f : CrawlFilters.t) :
  (1 ≤ CrawlFilters.Page (CrawlFilters.Validate f).1)%Z
  ∧ (1 ≤ CrawlFilters.PageSize (CrawlFilters.Validate f).1 ≤ 100)%Z.
Proof.
  unfold CrawlFilters.Validate.
  destruct (CrawlFilters.Status f) as [s|]; [destruct (negb (IsValid s))|]; cbn.
  all: split; [destruct (decide (CrawlFilters.Page f < 1)%Z); lia|].
  all: destruct (decide (CrawlFilters.PageSize f < 1
                         ∨ 100 < CrawlFilters.PageSize f)%Z); lia.
Qed.

(** X26.  A listing that succeeds reports the count the database gave, the
    normalised page and page size, and as many pages as it takes to hold
    [total] rows at [PageSize] rows a page (none for an empty listing); for a
    page number up to 2^56 its rows are those the database returns for
    [LIMIT PageSize OFFSET (Page - 1) * PageSize]. *)
Theorem GetCrawlResults_pages (total : Z) (rows : Z → Z → rows_answer)
    (filters : CrawlFilters.t) (r : PaginatedCrawlResults) :
  (0 ≤ total < 2 ^ 62)%Z →
  CrawlStorage.GetCrawlResults (inl total) rows filters = inl r →
  Total r = total
  ∧ Paginated_Page r = CrawlFilters.Page (CrawlFilters.Validate filters).1
  ∧ (1 ≤ Paginated_Page r)%Z
  ∧ (1 ≤ Paginated_PageSize r ≤ 100)%Z
  ∧ ((TotalPages r - 1) * Paginated_PageSize r < total
     ≤ TotalPages r * Paginated_PageSize r)%Z
  ∧ ((Paginated_Page r ≤ 2 ^ 56)%Z →
     rows (Paginated_PageSize r)
          ((Paginated_Page r - 1) * Paginated_PageSize r)%Z
     = RowsScanned (Results r)).
Proof.
  intros Htotal. unfold CrawlStorage.GetCrawlResults.
  pose proof (Validate_bounds filters) as (Hpage & Hsize).
  destruct (CrawlFilters.Validate filters) as [f' [err|]]; [done|].
  cbn [fst] in *.
  set (page := CrawlFilters.Page f') in *.
  set (size := CrawlFilters.PageSize f') in *.
  destruct (rows size (int_wrap (int_wrap (page - 1) * size))) as [results| | |]
    eqn:Hrows; [|done..].
  intros [= <-]. cbn.
  rewrite (int_wrap_small (total + size)) by lia.
  rewrite (int_wrap_small (total + size - 1)) by lia.
  clearbody page size.
  rewrite (Z.quot_div_nonneg (total + size - 1) size) by lia.
  pose proof (Z.div_mod (total + size - 1) size ltac:(lia)) as Hdiv.
  pose proof (Z.mod_pos_bound (total + size - 1) size ltac:(lia)) as Hmod.
  split_and!; [done | done | done | lia | lia | lia | lia | ].
  - intros Hsmall. rewrite <- Hrows.
    rewrite (int_wrap_small (page - 1)) by lia.
    rewrite (int_wrap_small ((page - 1) * size)) by nia. done.
Qed.

(** ** The handlers *)

Section HandlerProperties.

Context (W : World).

Ltac unfold_handlers :=
  unfold handlers.CreateCrawlRequest, handlers.RerunCrawlResults,
    handlers.GetCrawlStatus, handlers.storage_UpdateCrawlResultsBulkStatus,
    handlers.storage_GetCrawlResult,
    EnqueueURL, RequeueTask, storage_SaveCrawlResult, storage_UpdateCrawlStatus,
    storage_GetCrawlResult, activeTasks_insert, activeTasks_delete,
    queue_send_or_default, new_task, load, uuid_New_String, time_Now_, sql_exec,
    GetActiveTask, database.SaveCrawlResult, database.UpdateCrawlStatus,
    database.GetCrawlResult, bind, ret, modify, gets, log.

Lemma ValidateURL_errors (To_LowerCase : Z → Z) (url err : string) :
  FirecrawlService.ValidateURL To_LowerCase url = Some err →
  err = "URL cannot be empty"
  ∨ err = "URL must start with http:// or https://"
  ∨ err = "potentially malicious URL pattern detected".
Proof.
  unfold FirecrawlService.ValidateURL.
  destruct (decide (url = "")); [intros [= <-]; by left|].
  destruct (negb _ && negb _); [intros [= <-]; by right; left|].
  intros H. right; right.
  induction FirecrawlService.maliciousPatterns as [|p ps IH]; [done|].
  cbn in H. destruct (strings.Contains _ p); [by injection H | by apply IH].
Qed.

(** X27.  [CreateCrawlRequest] on a body that binds and passes the struct
    validator, with the Firecrawl service as crawler: a target [ValidateURL]
    refuses is answered 400 with the reason and the service is left as it
    was; for a valid target whose row is saved, on a channel that has not
    been closed, the answer is 429 with the queue-full text when the buffer
    has no room, and the id is not in flight; with room it is 201 with the
    new id, the target and status [queued], and the id is in flight. *)
Theorem CreateCrawlRequest_codes (To_LowerCase : Z → Z)
    (scrape : nat → string → analysis)
    (validate_url : string → option string) (url : string) (q : QueueService) :
  validate_url url = None →
  let crawler := FirecrawlService.crawler To_LowerCase scrape in
  let call := handlers.CreateCrawlRequest W crawler validate_url (Some url) q in
  let id := uuid_New W (n_uuid (made q)) in
  (∀ err, FirecrawlService.ValidateURL To_LowerCase url = Some err →
     call = (Return (handlers.JSONError 400 ("invalid URL: " +:+ err)), q))
  ∧ (FirecrawlService.ValidateURL To_LowerCase url = None →
     db_Exec W (n_db (made q)) = None →
     queue_closed q = false →
     ((bufferSize q ≤ Z.of_nat (length (queue q)))%Z →
        call.1 = Return (handlers.JSONError 429
                           "queue is full, please try again later")
        ∧ queue call.2 = queue q
        ∧ GetActiveTask id call.2 = None)
     ∧ ((Z.of_nat (length (queue q)) < bufferSize q)%Z →
        call.1 = Return (handlers.JSON 201
                   {| handlers.Response_ID := id;
                      handlers.Response_URL := url;
                      handlers.Response_Status := CrawlStatusQueued;
                      handlers.Message := "URL added to crawl queue successfully" |})
        ∧ is_Some (GetActiveTask id call.2))).
Proof.
  intros Hstruct. cbn zeta. split.
  - intros err Herr. unfold_handlers. rewrite Hstruct. cbn. rewrite Herr.
    destruct (ValidateURL_errors To_LowerCase url err Herr) as [-> | [-> | ->]]; reflexivity.
  - intros Hvalid Hsave Hopen. split.
    + intros Hfull. unfold_handlers. rewrite Hstruct. cbn. rewrite Hvalid. cbn.
      rewrite Hsave. cbn. rewrite Hopen.
      destruct (decide _) as [Hroom|_]; [lia|]. cbn.
      destruct (db_Exec W (S (n_db (made q)))); cbn.
      all: split_and!; [reflexivity | reflexivity | apply lookup_delete_eq].
    + intros Hroom. unfold_handlers. rewrite Hstruct. cbn. rewrite Hvalid. cbn.
      rewrite Hsave. cbn. rewrite Hopen.
      destruct (decide _) as [_|Hfull]; [|lia]. cbn.
      split; [reflexivity|]. rewrite lookup_insert_eq. by eexists.
Qed.

(** *** Reruns *)

Lemma requeue_each_counts (ids : list string) :
  ∀ (successCount : Z) (errors : list string) (q : QueueService)
    (n : Z) (errs : list string) (q' : QueueService),
    handlers.requeue_each W ids successCount errors q = (Return (n, errs), q') →
    (n + Z.of_nat (length errs)
     = successCount + Z.of_nat (length errors) + Z.of_nat (length ids))%Z
    ∧ (successCount ≤ n)%Z.
Proof.
  induction ids as [|id ids IH]; intros successCount errors q n errs q'; cbn.
  - unfold ret. intros [= <- <- <-]. lia.
  - unfold bind at 1. destruct (RequeueTask W id q) as [[[]|err|msg] q1].
    + intros H. apply IH in H. lia.
    + intros H. apply IH in H. rewrite length_app in H. cbn in H. lia.
    + by unfold ret.
Qed.

(** X28.  Whenever [RerunCrawlResults] answers with the report of a rerun,
    the report adds up: the successes and the listed failures together are
    as many as the ids requested; the answer is 200 exactly when no failure
    is listed and 206 otherwise; and at least one of the requested ids had a
    row, since the bulk update to [queued] went through. *)
Theorem RerunCrawlResults_counts (validate_ids : list string → option string)
    (affected : option string) (clientFoundRows : bool) (ids : list string)
    (q q' : QueueService) (code : Z) (body : handlers.RerunResponse) :
  handlers.RerunCrawlResults W validate_ids affected clientFoundRows (Some ids) q
    = (Return (handlers.JSON code body), q') →
  handlers.total_requested body = Z.of_nat (length ids)
  ∧ (0 ≤ handlers.success_count body)%Z
  ∧ (handlers.success_count body + Z.of_nat (length (handlers.errors body))
     = Z.of_nat (length ids))%Z
  ∧ ((code = 200%Z ∧ handlers.errors body = [])
     ∨ (code = 206%Z ∧ handlers.errors body ≠ []))
  ∧ (ids ≠ [] → ∃ id, id ∈ ids ∧ is_Some (storage q !! id)).
Proof.
  unfold handlers.RerunCrawlResults.
  destruct (validate_ids ids); [by unfold ret|].
  unfold bind at 1.
  destruct (handlers.storage_UpdateCrawlResultsBulkStatus W affected
              clientFoundRows ids CrawlStatusQueued q) as [[err|] q0] eqn:Hbulk;
    [by unfold ret|].
  unfold bind at 1.
  destruct (handlers.requeue_each W ids 0 [] q0) as [[[n errs]|msg|msg] q1]
    eqn:Hloop; [|by unfold ret..].
  apply requeue_each_counts in Hloop as [Hsum Hpos]. cbn in Hsum.
  assert (Hrows : ids ≠ [] → ∃ id, id ∈ ids ∧ is_Some (storage q !! id)).
  { intros Hids. revert Hbulk.
    unfold handlers.storage_UpdateCrawlResultsBulkStatus.
    destruct ids as [|id0 ids0]; [done|].
    unfold bind, ret, modify, gets, time_Now_, sql_exec. cbn [storage set_made].
    rewrite UpdateCrawlResultsBulkStatus_listed by done.
    destruct (db_Exec W _); [done|]. destruct affected; [done|]. cbn zeta.
    destruct (decide _) as [|Hsome]; [done|]. intros _.
    destruct clientFoundRows.
    - apply map_size_ne_0_lookup in Hsome as [id [row Hrow]].
      apply listed_lookup in Hrow as [Hrow Hid]. cbn in Hrow. eauto.
    - apply map_size_ne_0_lookup in Hsome as [id [row Hrow]].
      apply map_lookup_filter_Some in Hrow as [Hrow _].
      apply listed_lookup in Hrow as [Hrow Hid]. cbn in Hrow. eauto. }
  destruct (decide (0 < length errs)) as [Hsome|Hnone]; unfold ret.
  - intros [= <- <- <-]. cbn. split_and!; [done | done | lia | | done].
    right. split; [done|]. intros ->. cbn in Hsome. lia.
  - intros [= <- <- <-]. cbn. split_and!; [done | done | lia | | done].
    left. split; [done|]. destruct errs; [done|]. cbn in Hnone. lia.
Qed.




(** *** The status of one crawl *)


End HandlerProperties.

(** ** The properties of Part III at concrete inputs *)

Lemma SaveCrawlResult_keeps_identity_witness :
  ∃ row',
    (database.SaveCrawlResult None
       (completed "a" 50 (page "http://elsewhere.example")) two_rows).1 !! "a"
      = Some row'
    ∧ ID row' = "a" ∧ URL row' = "http://a.example"
    ∧ CreatedAt row' = 10%Z
    ∧ Status row' = CrawlStatusCompleted.
Proof.
  apply (proj1 (SaveCrawlResult_keeps_identity
                  (completed "a" 50 (page "http://elsewhere.example")) two_rows
                  (database.SaveCrawlResult None
                     (completed "a" 50 (page "http://elsewhere.example"))
                     two_rows).1
                  eq_refl) (row_of "a" CrawlStatusCompleted 10)).
  vm_compute; reflexivity.
Defined.


Lemma DeleteCrawlResults_success_witness :
  (CrawlStorage.DeleteCrawlResults None None ["a"; "zzz"] two_rows).1 !! "a"
  = None.
Proof.
  apply (DeleteCrawlResults_success None None ["a"; "zzz"] two_rows
           (CrawlStorage.DeleteCrawlResults None None ["a"; "zzz"] two_rows).1);
    [vm_compute; reflexivity | constructor].
Defined.

Lemma DeleteCrawlResults_nothing_to_delete_witness :
  (CrawlStorage.DeleteCrawlResults None None ["zzz"; "yyy"] two_rows).2
  = Some "no crawl results were deleted"
  ∧ (CrawlStorage.DeleteCrawlResults None None ["zzz"; "yyy"] two_rows).1
    = two_rows.
Proof.
  assert (Hnone : (CrawlStorage.DeleteCrawlResults None None ["zzz"; "yyy"]
                     two_rows).2 = Some "no crawl results were deleted").
  { apply (proj2 (proj1 (DeleteCrawlResults_nothing_to_delete None None
                             ["zzz"; "yyy"] two_rows))).
    split_and!; [done | done | done |].
    intros id [-> | [-> | []%elem_of_nil]%elem_of_cons]%elem_of_cons;
      vm_compute; reflexivity. }
  split; [exact Hnone|].
  exact (proj1 (proj2 (DeleteCrawlResults_nothing_to_delete None None
                         ["zzz"; "yyy"] two_rows)) Hnone).
Defined.

Lemma UpdateCrawlResultsBulkStatus_success_witness :
  (CrawlStorage.UpdateCrawlResultsBulkStatus None None false 50 ["a"]
     CrawlStatusQueued two_rows).1 !! "a"
  = Some (database.set_status CrawlStatusQueued None 50
            (row_of "a" CrawlStatusCompleted 10)).
Proof.
  apply (UpdateCrawlResultsBulkStatus_success None None false 50 ["a"]
           CrawlStatusQueued two_rows
           (CrawlStorage.UpdateCrawlResultsBulkStatus None None false 50 ["a"]
              CrawlStatusQueued two_rows).1);
    [vm_compute; reflexivity | by apply list_elem_of_singleton
    | vm_compute; reflexivity].
Defined.

Lemma UpdateCrawlResultsBulkStatus_nothing_witness :
  CrawlStorage.UpdateCrawlResultsBulkStatus None None true 50 ["zzz"]
    CrawlStatusQueued two_rows
  = (two_rows, Some "no crawl results were updated").
Proof.
  apply (proj1 (UpdateCrawlResultsBulkStatus_nothing true 50 ["zzz"]
                  CrawlStatusQueued two_rows ltac:(done))).
  intros id ->%list_elem_of_singleton. vm_compute; reflexivity.
Defined.


Lemma GetCrawlStats_consistent_witness :
  CrawlStorage.GetCrawlStats None two_rows = inl stats_of_two_rows
  ∧ CrawlStorage.stats_Total stats_of_two_rows = Z.of_nat (size two_rows)
  ∧ (0 < CrawlStorage.stats_Total stats_of_two_rows)%Z
  ∧ CrawlStorage.stats_Total stats_of_two_rows
    = (CrawlStorage.stats_Queued stats_of_two_rows
       + CrawlStorage.stats_Running stats_of_two_rows
       + CrawlStorage.stats_Completed stats_of_two_rows
       + CrawlStorage.stats_Error stats_of_two_rows)%Z.
Proof.
  split; [vm_compute; reflexivity|].
  apply (proj1 (GetCrawlStats_consistent None two_rows) stats_of_two_rows).
  vm_compute; reflexivity.
Defined.

Lemma EnqueueURL_save_failure_witness :
  ∃ q',
    EnqueueURL (world (db_down_after 0)) engine_ok "http://a.example" small_pool
      = (Error ("failed to save crawl result: failed to save crawl result: "
                +:+ "connection refused"), q')
    ∧ storage q' = storage small_pool
    ∧ activeTasks q' = activeTasks small_pool
    ∧ queue q' = queue small_pool
    ∧ heap q' = heap small_pool.
Proof.
  apply (EnqueueURL_save_failure (world (db_down_after 0)) engine_ok
           "http://a.example" "connection refused" small_pool);
    vm_compute; reflexivity.
Defined.


Lemma RequeueTask_requeues_witness :
  ∃ q' task t row',
    RequeueTask (world db_up) "a" stocked_pool = (Return tt, q')
    ∧ GetActiveTask "a" q' = Some task
    ∧ heap q' !! task = Some t
    ∧ task_ID t = "a" ∧ task_URL t = "http://a.example"
    ∧ task_Status t = CrawlStatusQueued
    ∧ queue q' = (queue stocked_pool ++ [task])%list
    ∧ storage q' !! "a" = Some row'
    ∧ Status row' = CrawlStatusQueued ∧ ErrorMessage row' = None
    ∧ ∃ now, row' = database.set_status CrawlStatusQueued None now
                      (row_of "a" CrawlStatusCompleted 10).
Proof.
  apply (RequeueTask_requeues (world db_up) "a"
           (row_of "a" CrawlStatusCompleted 10) stocked_pool);
    vm_compute; reflexivity.
Defined.

Lemma RequeueTask_update_failure_witness :
  ∃ q',
    RequeueTask (world (db_down_after 1)) "a" stocked_pool
      = (Error ("failed to update status: failed to update crawl status: "
                +:+ "connection refused"), q')
    ∧ storage q' = storage stocked_pool
    ∧ activeTasks q' = activeTasks stocked_pool
    ∧ queue q' = queue stocked_pool.
Proof.
  apply (RequeueTask_update_failure (world (db_down_after 1)) "a"
           "connection refused" (row_of "a" CrawlStatusCompleted 10)
           stocked_pool); vm_compute; reflexivity.
Defined.

Lemma within_capacity_kept_witness :
  within_capacity
    (EnqueueURL (world db_up) engine_ok "http://b.example" one_queued).2.
Proof.
  exact (proj1 (proj2 (within_capacity_kept (world db_up) engine_ok one_queued)
                  ltac:(by vm_compute)) "http://b.example").
Defined.

Lemma pointers_valid_kept_witness : pointers_valid one_queued.
Proof.
  exact (proj1 (proj2 (pointers_valid_kept (world db_up) engine_ok small_pool)
                  (proj1 (pointers_valid_kept (world db_up) engine_ok small_pool)
                     1 1 3 5000000000 ∅)%Z) "http://a.example").
Defined.



Lemma EnqueueEach_fills_buffer_witness :
  let urls := ["http://a.example"; "http://b.example"; "http://c.example"] in
  let os := (EnqueueEach (world db_up) engine_ok urls stocked_pool).1 in
  let q' := (EnqueueEach (world db_up) engine_ok urls stocked_pool).2 in
  length os = 3%nat
  ∧ Forall (λ o, is_Return o = true) (take 2 os)
  ∧ Forall (λ o, o = Error "queue is full, please try again later") (drop 2 os)
  ∧ length (queue q') = 2%nat.
Proof.
  apply (EnqueueEach_fills_buffer (world db_up) engine_ok
           ["http://a.example"; "http://b.example"; "http://c.example"]
           stocked_pool);
    [reflexivity | repeat constructor | reflexivity | by vm_compute].
Defined.

Lemma detectLoginForm_iff_password_field_witness :
  detectLoginForm To_LowerCase_sample
    "<form><input name='user'><input type='PASSWORD'></form>"
  = true.
Proof.
  apply (detectLoginForm_iff_password_field To_LowerCase_sample
           "<form><input name='user'><input type='PASSWORD'></form>").
  right. vm_compute; reflexivity.
Defined.

Lemma AuthMiddleware_skips_rooted_paths_witness :
  middleware.AuthMiddleware toy_hash
    (middleware.NewAuthConfig toy_hash [("secret", "ci")]) "/api/crawl" ""
  = middleware.Next None.
Proof.
  apply (AuthMiddleware_skips_rooted_paths toy_hash [("secret", "ci")]
           "/api/crawl" ""). reflexivity.
Defined.

Lemma AuthMiddleware_authenticates_iff_witness :
  middleware.AuthMiddleware toy_hash one_key "/api/crawl" "Bearer secret"
  = middleware.Next (Some ("ci", "#secret")).
Proof.
  apply (AuthMiddleware_authenticates_iff toy_hash one_key "/api/crawl"
           "Bearer secret" "ci" "#secret").
  split; [reflexivity|]. exists "secret".
  split_and!; [reflexivity | done | reflexivity | vm_compute; reflexivity].
Defined.

Lemma AddAPIKey_then_authenticates_witness :
  middleware.AuthMiddleware toy_hash
    (middleware.AddAPIKey toy_hash "fresh" "cd" one_key) "/api/crawl"
    "Bearer fresh"
  = middleware.Next (Some ("cd", "#fresh")).
Proof.
  apply (AddAPIKey_then_authenticates toy_hash one_key "fresh" "cd" "/api/crawl");
    [done | reflexivity].
Defined.


Lemma RateLimitMiddleware_bounded_witness :
  (Z.of_nat (length [0%Z])
   ≤ Z.max 0 (middleware.RequestsPerMinute two_per_minute))%Z.
Proof.
  apply (RateLimitMiddleware_bounded two_per_minute "ip:1" 0 ∅) with "ip:1";
    [|vm_compute; reflexivity].
  intros key times. rewrite lookup_empty. discriminate.
Defined.

Lemma Validate_normalises_witness :
  CrawlFilters.Validate (CrawlFilters.Validate wild_filters).1
  = CrawlFilters.Validate wild_filters.
Proof. apply (Validate_normalises wild_filters). Defined.

Lemma parseFilters_valid_witness :
  CrawlFilters.SortBy
    (handlers.parseFilters (Some 3%Z) None "" "" "id; DROP TABLE crawl_results"
       "asc")
  ∈ handlers.allowedFields.
Proof.
  apply (parseFilters_valid (Some 3%Z) None "" "" "id; DROP TABLE crawl_results"
           "asc").
Defined.

Lemma GetCrawlResults_pages_witness :
  CrawlStorage.GetCrawlResults (inl 21%Z) (λ _ _, RowsScanned [])
    CrawlFilters.DefaultFilters = inl first_of_21
  ∧ ((TotalPages first_of_21 - 1) * Paginated_PageSize first_of_21 < 21
     ≤ TotalPages first_of_21 * Paginated_PageSize first_of_21)%Z.
Proof.
  split; [vm_compute; reflexivity|].
  apply (GetCrawlResults_pages 21 (λ _ _, RowsScanned [])
           CrawlFilters.DefaultFilters first_of_21);
    [lia | vm_compute; reflexivity].
Defined.

Lemma CreateCrawlRequest_codes_witness :
  handlers.CreateCrawlRequest (world db_up) engine_ok no_check
    (Some "https://example.com/fİle:x") one_queued
  = (Return (handlers.JSONError 400
               "invalid URL: potentially malicious URL pattern detected"),
     one_queued).
Proof.
  apply (CreateCrawlRequest_codes (world db_up) To_LowerCase_sample
           (λ _ url, Analyzed (page url)) no_check
           "https://example.com/fİle:x" one_queued eq_refl).
  vm_compute; reflexivity.
Defined.

Lemma RerunCrawlResults_counts_witness :
  (handlers.RerunCrawlResults (world db_up) no_check None true
     (Some ["a"; "zzz"]) stocked_pool).1
  = Return (handlers.JSON 206 rerun_a_zzz)
  ∧ (handlers.success_count rerun_a_zzz
     + Z.of_nat (length (handlers.errors rerun_a_zzz))
     = Z.of_nat (length ["a"; "zzz"]))%Z.
Proof.
  split; [vm_compute; reflexivity|].
  apply (RerunCrawlResults_counts (world db_up) no_check None true ["a"; "zzz"]
           stocked_pool
           (handlers.RerunCrawlResults (world db_up) no_check None true
              (Some ["a"; "zzz"]) stocked_pool).2
           206 rerun_a_zzz).
  vm_compute; reflexivity.
Defined.


